(** * The music-emotion game orchestrator

    A shallow embedding of [src/music_game/game/engine.py]
    ([MusicEmotionGame]), [src/music_game/game/common.py] ([GameResult],
    [GameConfig]) and [src/music_game/game/unreal_client.py]
    ([UnrealClient.send_game_result]).

    The orchestrator threads one piece of mutable state, [self.history],
    through calls to collaborators that live outside the package (audio
    decoding, chroma and chord estimation, the emotion classifier, the
    Ollama client and the OSC socket).  Every collaborator call may raise.
    The embedding is a state-and-exception monad whose state carries the
    history together with a log of the effects performed so far, in program
    order. *)

From Stdlib Require Import ZArith List String Ascii Bool Lia Sorted.
From Stdlib Require Import Floats.SpecFloat.
Import ListNotations.

Local Open Scope string_scope.
Local Open Scope list_scope.
Local Open Scope Z_scope.

(* ================================================================== *)
(** ** Python floats *)

(** A Python [float] is an IEEE 754 binary64 value.  [spec_float] is the
    Standard Library's specification of those values; comparisons are the
    IEEE ones (every comparison with a NaN is false). *)
Module PyFloat.

Definition float : Type := spec_float.

Definition prec : Z := 53.
Definition emax : Z := 1024.

Definition zero : float := S754_zero false.
Definition infinity (neg : bool) : float := S754_infinity neg.
Definition nan : float := S754_nan.

(** [x < y] and [x <= y] on floats. *)
Definition ltb (x y : float) : bool := SFltb x y.
Definition leb (x y : float) : bool := SFleb x y.

(** The correctly rounded (to nearest, ties to even) value of
    [(-1)^neg * m * 10^e], for [m >= 0]. *)
Definition of_decimal (neg : bool) (m : Z) (e : Z) : float :=
  match m with
  | Zpos p =>
      if 0 <=? e
      then binary_normalize prec emax
             (if neg then - (m * 10 ^ e) else m * 10 ^ e) 0 neg
      else SFdiv prec emax (S754_finite neg p 0)
             (S754_finite false (Z.to_pos (10 ^ (- e))) 0)
  | _ => S754_zero neg
  end.

(** *** [float(str)]

    The grammar of the language reference for the argument of [float]:
<<
    sign          ::= "+" | "-"
    infinity      ::= "Infinity" | "inf"
    nan           ::= "nan"
    digitpart     ::= digit (["_"] digit)*
    number        ::= [digitpart] "." digitpart | digitpart ["."]
    exponent      ::= ("e" | "E") [sign] digitpart
    floatnumber   ::= number [exponent]
    absfloatvalue ::= floatnumber | infinity | nan
    floatvalue    ::= [sign] absfloatvalue
>>
    Case is not significant, and leading and trailing whitespace is
    removed first.

    A Python [str] is modelled throughout by the sequence of its code
    points, one [ascii] per code point, so the strings of this
    development are those whose code points lie below 256.  On them
    [float] works as follows: a string with a code point above 127 first
    has its Unicode whitespace (below 256 that is U+0085 and U+00A0)
    turned into blanks and every other such code point into a character
    that cannot be parsed (no decimal digit lies between 128 and 255);
    then the characters 9 to 13 and 32 are stripped from both ends and
    the rest is read by the grammar.  The separators 28 to 31 are
    whitespace for [str.strip] but are not removed by [float] or [int]. *)

Definition is_space (c : ascii) : bool :=
  let n := nat_of_ascii c in
  ((9 <=? n) && (n <=? 13) || (n =? 32) || (n =? 133) || (n =? 160))%nat.

Fixpoint lstrip (s : list ascii) : list ascii :=
  match s with
  | c :: s' => if is_space c then lstrip s' else s
  | [] => []
  end.

Definition strip (s : list ascii) : list ascii :=
  rev (lstrip (rev (lstrip s))).

Definition lower (c : ascii) : ascii :=
  let n := nat_of_ascii c in
  if ((65 <=? n) && (n <=? 90))%nat then ascii_of_nat (n + 32) else c.

Definition digit (c : ascii) : option Z :=
  let n := nat_of_ascii c in
  if ((48 <=? n) && (n <=? 57))%nat then Some (Z.of_nat (n - 48)) else None.

(** The rest of a [digitpart] after its first digit; [acc] holds the
    digits read so far, most recent first. *)
Fixpoint digitpart_rest (acc : list Z) (s : list ascii) : list Z * list ascii :=
  match s with
  | c :: s' =>
      match digit c with
      | Some d => digitpart_rest (d :: acc) s'
      | None =>
          if Ascii.eqb c "_" then
            match s' with
            | c' :: s'' =>
                match digit c' with
                | Some d => digitpart_rest (d :: acc) s''
                | None => (acc, s)
                end
            | [] => (acc, s)
            end
          else (acc, s)
      end
  | [] => (acc, [])
  end.

Definition digitpart (s : list ascii) : option (list Z * list ascii) :=
  match s with
  | c :: s' =>
      match digit c with
      | Some d => Some (digitpart_rest [d] s')
      | None => None
      end
  | [] => None
  end.

(** [number]: the integer digits, the fraction digits (both most recent
    first) and what follows. *)
Definition number (s : list ascii) : option (list Z * list Z * list ascii) :=
  match digitpart s with
  | Some (ip, r) =>
      match r with
      | "."%char :: r' =>
          match digitpart r' with
          | Some (fp, r'') => Some (ip, fp, r'')
          | None => Some (ip, [], r')
          end
      | _ => Some (ip, [], r)
      end
  | None =>
      match s with
      | "."%char :: r' =>
          match digitpart r' with
          | Some (fp, r'') => Some ([], fp, r'')
          | None => None
          end
      | _ => None
      end
  end.

Definition sign (s : list ascii) : bool * list ascii :=
  match s with
  | "-"%char :: s' => (true, s')
  | "+"%char :: s' => (false, s')
  | _ => (false, s)
  end.

(** The exponent and what follows; no exponent marker reads as [0]. *)
Definition exponent (s : list ascii) : option (Z * list ascii) :=
  match s with
  | c :: s' =>
      if Ascii.eqb (lower c) "e" then
        let '(neg, s'') := sign s' in
        match digitpart s'' with
        | Some (ds, r) =>
            let n := fold_right (fun d a => d + 10 * a) 0 ds in
            Some (if neg then - n else n, r)
        | None => None
        end
      else Some (0, s)
  | [] => Some (0, [])
  end.

Definition floatnumber (neg : bool) (s : list ascii) : option float :=
  match number s with
  | Some (ip, fp, r) =>
      match exponent r with
      | Some (e, []) =>
          let m := fold_right (fun d a => d + 10 * a) 0 (fp ++ ip)%list in
          Some (of_decimal neg m (e - Z.of_nat (List.length fp)))
      | _ => None
      end
  | None => None
  end.

(** [float(s)] for a string [s]: [None] stands for [ValueError]. *)
Definition of_string (s : string) : option float :=
  let '(neg, body) := sign (strip (list_ascii_of_string s)) in
  let word := string_of_list_ascii (map lower body) in
  if String.eqb word "inf" || String.eqb word "infinity"
  then Some (infinity neg)
  else if String.eqb word "nan" then Some nan
  else floatnumber neg body.

End PyFloat.

(* ================================================================== *)
(** ** Python dictionaries *)

(** A [dict] keeps its keys unique and iterates in insertion order, and
    the sink walks [items()], so the model is the list of bindings in
    insertion order. *)
Module PyDict.

Definition dict (V : Type) : Type := list (string * V).

Fixpoint get {V} (key : string) (d : dict V) : option V :=
  match d with
  | [] => None
  | (k, v) :: d' => if String.eqb k key then Some v else get key d'
  end.

(** [d.get(key, default)] *)
Definition get_default {V} (key : string) (default : V) (d : dict V) : V :=
  match get key d with
  | Some v => v
  | None => default
  end.

(** [d[key] = v]: an existing key keeps its place. *)
Fixpoint set {V} (key : string) (v : V) (d : dict V) : dict V :=
  match d with
  | [] => [(key, v)]
  | (k, x) :: d' =>
      if String.eqb k key then (k, v) :: d' else (k, x) :: set key v d'
  end.

Definition items {V} (d : dict V) : list (string * V) := d.

(** [{key: f(key) for key in ks}] when [f] cannot raise. *)
Definition comprehension {V} (f : string -> V) (ks : list string) : dict V :=
  fold_left (fun d key => set key (f key) d) ks [].

End PyDict.

(* ================================================================== *)
(** ** Exceptions and results *)

Inductive exn : Type :=
| ValueError                 (* [float] of a string that is no number *)
| KeyError (key : string)    (* subscript of a missing key *)
| Error (name : string).     (* anything a collaborator raises *)

Inductive result (A : Type) : Type :=
| Ok (a : A)
| Raise (e : exn).

Arguments Ok {A} a.
Arguments Raise {A} e.

Definition is_ok {A} (r : result A) : bool :=
  match r with Ok _ => true | Raise _ => false end.

(** A dictionary comprehension whose value expression may raise: the keys
    are visited in order and the first exception aborts the comprehension. *)
Fixpoint comprehension_from {V} (f : string -> result V) (ks : list string)
    (d : PyDict.dict V) : result (PyDict.dict V) :=
  match ks with
  | [] => Ok d
  | key :: ks' =>
      match f key with
      | Ok v => comprehension_from f ks' (PyDict.set key v d)
      | Raise e => Raise e
      end
  end.

(** [d[key]] *)
Definition subscript {V} (d : PyDict.dict V) (key : string) : result V :=
  match PyDict.get key d with
  | Some v => Ok v
  | None => Raise (KeyError key)
  end.

(* ================================================================== *)
(** ** Data model *)

(** A descriptor value, as [GameResult.descriptors] declares it:
    [Dict[str, float | str]]. *)
Inductive desc_value : Type :=
| DFloat (f : PyFloat.float)
| DStr (s : string).

Definition Descriptors : Type := PyDict.dict desc_value.

(** [float(v)] for a descriptor value. *)
Definition py_float (v : desc_value) : result PyFloat.float :=
  match v with
  | DFloat f => Ok f
  | DStr s =>
      match PyFloat.of_string s with
      | Some f => Ok f
      | None => Raise ValueError
      end
  end.

(** Modelled from the spec: [ChordPrediction] is declared in
    [music_game/audio/input.py], which is not part of the sources at hand;
    the spec gives it the single field [label: string]. *)
Module Chord.
Record ChordPrediction : Type := { label : string }.
End Chord.

(** Modelled from the spec: [EmotionPrediction] is declared in
    [music_game/emotion/model.py]; the spec gives it [label: string],
    [confidence: float] and [probabilities: mapping(label -> float)]. *)
Module Emotion.
Record EmotionPrediction : Type :=
  { label : string;
    confidence : PyFloat.float;
    probabilities : PyDict.dict PyFloat.float }.
End Emotion.

(** Modelled from the spec: [DialogueTurn] is declared in
    [music_game/llm/dialogue.py]; the spec gives it a [role] and a
    [content: string].  The sink sends the role as an OSC string. *)
Record DialogueTurn : Type := { role : string; content : string }.

(** [common.GameResult] *)
Record GameResult : Type :=
  { chord : option Chord.ChordPrediction;
    emotion : option Emotion.EmotionPrediction;
    descriptors : Descriptors;
    dialogue : option DialogueTurn }.

(** [common.GameConfig] *)
Record GameConfig : Type :=
  { sample_rate : Z;
    hop_length : Z;
    confidence_threshold : PyFloat.float;
    emotion_labels : list string;
    ollama_model : string;
    history_limit : Z;
    unreal_enabled : bool;
    unreal_ip : string;
    unreal_port : Z }.

(** [0.5] *)
Definition half : PyFloat.float := S754_finite false 4503599627370496 (-53).

(** The defaults of the dataclass. *)
Definition GameConfig_default : GameConfig :=
  {| sample_rate := 22050;
     hop_length := 512;
     confidence_threshold := half;
     emotion_labels := ["joyful"; "melancholic"; "tense"; "calm"];
     ollama_model := "llama3";
     history_limit := 6;
     unreal_enabled := false;
     unreal_ip := "127.0.0.1";
     unreal_port := 7000 |}.

(** Sample buffers and chroma matrices only pass through the
    orchestrator. *)
Definition Samples : Type := list PyFloat.float.
Definition Chroma : Type := list (list PyFloat.float).

(** An OSC argument. *)
Inductive osc_value : Type :=
| OscStr (s : string)
| OscFloat (f : PyFloat.float).

(** Truthiness of an [Optional[...]] holding a plain dataclass or object
    (no [__bool__], no [__len__]): only [None] is false. *)
Definition truthy {A} (o : option A) : bool :=
  match o with Some _ => true | None => false end.

(** ** Slices *)

(** The lower bound of [l[start:]] for a list of length [len]. *)
Definition slice_start (start len : Z) : Z :=
  if start <? 0 then Z.max (start + len) 0 else Z.min start len.

(** [l[start:]] *)
Definition slice_from {A} (start : Z) (l : list A) : list A :=
  skipn (Z.to_nat (slice_start start (Z.of_nat (List.length l)))) l.

(* ================================================================== *)
(** ** Effects *)

(** What a run does, in program order: each collaborator call with its
    arguments and its outcome, each update of [self.history], and the
    construction of the [GameResult]. *)
Inductive event : Type :=
| EvLoadAudio (file_path : string) (sample_rate : Z) (out : result (Samples * Z))
| EvComputeChroma (samples : Samples) (sr hop_length : Z) (out : result Chroma)
| EvDeriveChroma (file_path : string) (out : result (option Chroma))
| EvEstimateChord (chroma : Chroma) (out : result (option Chord.ChordPrediction))
| EvExtractDescriptors (samples : Samples) (sr : Z) (out : result Descriptors)
| EvPredict (features : PyDict.dict PyFloat.float)
    (out : result Emotion.EmotionPrediction)
| EvGenerate (emotion_label chord_label : string) (descriptors : Descriptors)
    (history : list DialogueTurn) (out : result DialogueTurn)
| EvHistoryAppend (turn : DialogueTurn)
| EvHistoryTrim (limit : Z)
| EvGameResult (result : GameResult)
| EvSendMessage (address : string) (value : osc_value) (out : result unit).

(** The collaborators.  None of them is part of the package; each one is
    an arbitrary function of its arguments and of everything that has
    happened so far, returning a value or raising. *)
Record World : Type :=
  { ext_load_audio_samples :
      list event -> string -> Z -> result (Samples * Z);
    ext_compute_chroma :
      list event -> Samples -> Z -> Z -> result Chroma;
    ext_derive_chroma_from_midi :
      list event -> string -> result (option Chroma);
    ext_estimate_chord :
      list event -> Chroma -> result (option Chord.ChordPrediction);
    ext_extract_essentia_descriptors :
      list event -> Samples -> Z -> result Descriptors;
    ext_predict :
      list event -> PyDict.dict PyFloat.float -> result Emotion.EmotionPrediction;
    ext_generate :
      list event -> string -> string -> Descriptors -> list DialogueTurn ->
      result DialogueTurn;
    ext_send_message :
      list event -> string -> osc_value -> result unit }.

(** The mutable part of a [MusicEmotionGame], and the log. *)
Record GameState : Type :=
  { history : list DialogueTurn;
    trace : list event }.

Definition initial_state : GameState := {| history := []; trace := [] |}.

Definition M (A : Type) : Type := GameState -> result A * GameState.

Definition ret {A} (a : A) : M A := fun st => (Ok a, st).

Definition raise {A} (e : exn) : M A := fun st => (Raise e, st).

Definition bind {A B} (m : M A) (k : A -> M B) : M B :=
  fun st =>
    match m st with
    | (Ok a, st') => k a st'
    | (Raise e, st') => (Raise e, st')
    end.

Declare Scope game_scope.
Delimit Scope game_scope with game.
Notation "x <- m ;; k" := (bind m (fun x => k))
  (at level 100, m at next level, right associativity) : game_scope.
Notation "' pat <- m ;; k" := (bind m (fun x => match x with pat => k end))
  (at level 100, pat pattern, m at next level, right associativity) : game_scope.
Notation "m ;;; k" := (bind m (fun _ => k))
  (at level 100, right associativity) : game_scope.

Definition lift {A} (r : result A) : M A :=
  fun st => (r, st).

Definition log (ev : event) (st : GameState) : GameState :=
  {| history := history st; trace := (trace st ++ [ev])%list |}.

(** A collaborator call: ask the world, log the call with its outcome. *)
Definition call {A} (oracle : list event -> result A) (ev : result A -> event)
    : M A :=
  fun st => let out := oracle (trace st) in (out, log (ev out) st).

Definition emit (ev : event) : M unit := fun st => (Ok tt, log ev st).

Fixpoint for_each {A} (body : A -> M unit) (l : list A) : M unit :=
  match l with
  | [] => ret tt
  | x :: l' => bind (body x) (fun _ => for_each body l')
  end.

(* ================================================================== *)
(** ** [unreal_client.UnrealClient] *)

Record UnrealClient : Type := { ip : string; port : Z }.

(** [engine.MusicEmotionGame]: the fields set by [__init__] that stay
    fixed.  [self.history] lives in [GameState]; the classifier and the
    Ollama client are collaborators of the [World]. *)
Record MusicEmotionGame : Type :=
  { config : GameConfig;
    unreal_client : option UnrealClient }.

(** [MusicEmotionGame.__init__] *)
Definition MusicEmotionGame_init (config : GameConfig) : MusicEmotionGame :=
  {| config := config;
     unreal_client :=
       if unreal_enabled config
       then Some {| ip := unreal_ip config; port := unreal_port config |}
       else None |}.

Section Engine.

Local Open Scope game_scope.

(** [emotion.model.FEATURE_KEYS]: the module that declares the constant
    is not part of the sources at hand, so it is a parameter. *)
Variable FEATURE_KEYS : list string.

Variable world : World.

(** *** Collaborator calls *)

Definition load_audio_samples (file_path : string) (sample_rate : Z)
    : M (Samples * Z) :=
  call (fun tr => ext_load_audio_samples world tr file_path sample_rate)
       (EvLoadAudio file_path sample_rate).

Definition compute_chroma (samples : Samples) (sr hop_length : Z) : M Chroma :=
  call (fun tr => ext_compute_chroma world tr samples sr hop_length)
       (EvComputeChroma samples sr hop_length).

Definition derive_chroma_from_midi (file_path : string) : M (option Chroma) :=
  call (fun tr => ext_derive_chroma_from_midi world tr file_path)
       (EvDeriveChroma file_path).

Definition estimate_chord (chroma : Chroma) : M (option Chord.ChordPrediction) :=
  call (fun tr => ext_estimate_chord world tr chroma) (EvEstimateChord chroma).

Definition extract_essentia_descriptors (samples : Samples) (sr : Z)
    : M Descriptors :=
  call (fun tr => ext_extract_essentia_descriptors world tr samples sr)
       (EvExtractDescriptors samples sr).

(** [self.emotion_classifier.predict] *)
Definition predict (features : PyDict.dict PyFloat.float)
    : M Emotion.EmotionPrediction :=
  call (fun tr => ext_predict world tr features) (EvPredict features).

(** [self.ollama.generate] *)
Definition generate (emotion_label chord_label : string)
    (descriptors : Descriptors) (history : list DialogueTurn) : M DialogueTurn :=
  call (fun tr => ext_generate world tr emotion_label chord_label descriptors history)
       (EvGenerate emotion_label chord_label descriptors history).

(** [self.client.send_message] *)
Definition send_message (address : string) (value : osc_value) : M unit :=
  call (fun tr => ext_send_message world tr address value)
       (EvSendMessage address value).

(** *** [UnrealClient.send_game_result] *)

(** [isinstance(value, (float, int, str))].  Descriptors are modelled at
    their declared type, [Dict[str, float | str]], and the test is true
    of every such value; a value of another type would be passed over. *)
Definition osc_compatible (value : desc_value) : bool :=
  match value with
  | DFloat _ => true
  | DStr _ => true
  end.

Definition osc_of_desc (value : desc_value) : osc_value :=
  match value with
  | DFloat f => OscFloat f
  | DStr s => OscStr s
  end.

(** The closing [print] writes to standard output and is left out. *)
Definition send_game_result (result : GameResult) : M unit :=
  (match chord result with
   | Some c => send_message "/music/chord/label" (OscStr (Chord.label c))
   | None => ret tt
   end) ;;;
  (match emotion result with
   | Some e =>
       send_message "/music/emotion/label" (OscStr (Emotion.label e)) ;;;
       send_message "/music/emotion/confidence"
                    (OscFloat (Emotion.confidence e)) ;;;
       for_each
         (fun '(emotion, prob) =>
            send_message ("/music/emotion/probability/" ++ emotion)%string
                         (OscFloat prob))
         (PyDict.items (Emotion.probabilities e))
   | None => ret tt
   end) ;;;
  (match dialogue result with
   | Some d =>
       send_message "/music/llm/content" (OscStr (content d)) ;;;
       send_message "/music/llm/role" (OscStr (role d))
   | None => ret tt
   end) ;;;
  for_each
    (fun '(key, value) =>
       if osc_compatible value
       then send_message ("/music/descriptor/" ++ key)%string (osc_of_desc value)
       else ret tt)
    (PyDict.items (descriptors result)).

(** *** [MusicEmotionGame] *)

Variable self : MusicEmotionGame.

(** [self.history.append(turn)] *)
Definition history_append (turn : DialogueTurn) : M unit :=
  fun st =>
    (Ok tt,
     {| history := (history st ++ [turn])%list;
        trace := (trace st ++ [EvHistoryAppend turn])%list |}).

(** [self.history = self.history[-limit:]] *)
Definition history_trim (limit : Z) : M unit :=
  fun st =>
    (Ok tt,
     {| history := slice_from (- limit) (history st);
        trace := (trace st ++ [EvHistoryTrim limit])%list |}).

Definition get_history : M (list DialogueTurn) :=
  fun st => (Ok (history st), st).

(** [GameResult(chord=..., emotion=..., descriptors=..., dialogue=...)] *)
Definition make_GameResult (chord : option Chord.ChordPrediction)
    (emotion : option Emotion.EmotionPrediction) (descriptors : Descriptors)
    (dialogue : option DialogueTurn) : M GameResult :=
  let result :=
    {| chord := chord; emotion := emotion;
       descriptors := descriptors; dialogue := dialogue |} in
  emit (EvGameResult result) ;;; ret result.

(** [{key: float(descriptors.get(key, 0.0)) for key in FEATURE_KEYS}] *)
Definition numeric_features (descriptors : Descriptors)
    : result (PyDict.dict PyFloat.float) :=
  comprehension_from
    (fun key => py_float
       (PyDict.get_default key (DFloat PyFloat.zero) descriptors))
    FEATURE_KEYS [].

Definition _infer_emotion (descriptors : Descriptors)
    : M (option Emotion.EmotionPrediction) :=
  numeric_features <- lift (numeric_features descriptors) ;;
  prediction <- predict numeric_features ;;
  if PyFloat.ltb (Emotion.confidence prediction)
                 (confidence_threshold (config self))
  then ret None
  else ret (Some prediction).

Definition _generate_dialogue (chord : option Chord.ChordPrediction)
    (emotion : option Emotion.EmotionPrediction) (descriptors : Descriptors)
    : M (option DialogueTurn) :=
  match chord, emotion with
  | Some chord, Some emotion =>
      let chord_label := Chord.label chord in
      history <- get_history ;;
      turn <- generate (Emotion.label emotion) chord_label descriptors history ;;
      history_append turn ;;;
      history_trim (history_limit (config self)) ;;;
      ret (Some turn)
  | _, _ => ret None
  end.

(** [if self.unreal_client: self.unreal_client.send_game_result(result)] *)
Definition broadcast (result : GameResult) : M unit :=
  match unreal_client self with
  | Some _ => send_game_result result
  | None => ret tt
  end.

Definition process_audio_file (file_path : string) : M GameResult :=
  '(samples, sr) <- load_audio_samples file_path (sample_rate (config self)) ;;
  chroma <- compute_chroma samples sr (hop_length (config self)) ;;
  chord <- estimate_chord chroma ;;
  descriptors <- extract_essentia_descriptors samples sr ;;
  emotion <- _infer_emotion descriptors ;;
  dialogue <- _generate_dialogue chord emotion descriptors ;;
  result <- make_GameResult chord emotion descriptors dialogue ;;
  broadcast result ;;;
  ret result.

(** [{key: float(descriptors[key]) for key in FEATURE_KEYS}] *)
Definition midi_features (descriptors : Descriptors)
    : result (PyDict.dict PyFloat.float) :=
  comprehension_from
    (fun key =>
       match subscript descriptors key with
       | Ok v => py_float v
       | Raise e => Raise e
       end)
    FEATURE_KEYS [].

(** A [Dict[str, float]] passed where a [Dict[str, float | str]] is
    expected. *)
Definition as_descriptors (features : PyDict.dict PyFloat.float) : Descriptors :=
  map (fun '(k, f) => (k, DFloat f)) features.

(** [{key: 0.0 for key in FEATURE_KEYS}] *)
Definition zero_descriptors : Descriptors :=
  PyDict.comprehension (fun _ => DFloat PyFloat.zero) FEATURE_KEYS.

Definition process_midi_file (file_path : string) : M GameResult :=
  chroma <- derive_chroma_from_midi file_path ;;
  chord <- match chroma with
           | Some chroma => estimate_chord chroma
           | None => ret None
           end ;;
  let descriptors := zero_descriptors in
  emotion <- (if truthy chord
              then
                features <- lift (midi_features descriptors) ;;
                _infer_emotion (as_descriptors features)
              else ret None) ;;
  dialogue <- _generate_dialogue chord emotion descriptors ;;
  result <- make_GameResult chord emotion descriptors dialogue ;;
  broadcast result ;;;
  ret result.

(** *** Requests *)

(** The two entry points, as [app/main.py] dispatches an upload. *)
Inductive request : Type :=
| Audio (file_path : string)
| Midi (file_path : string).

Definition process (req : request) : M GameResult :=
  match req with
  | Audio file_path => process_audio_file file_path
  | Midi file_path => process_midi_file file_path
  end.

(** Requests served one after the other by the same game object.  The
    caller catches whatever a request raises and keeps the object, so a
    failed request does not end the session. *)
Fixpoint session (reqs : list request) (st : GameState) : GameState :=
  match reqs with
  | [] => st
  | req :: reqs' => session reqs' (snd (process req st))
  end.

End Engine.

(* ================================================================== *)
(** ** Reading a log *)

(** The events a computation added when it took [st] to [st']. *)
Definition new_events (st st' : GameState) : list event :=
  skipn (List.length (trace st)) (trace st').

(** The stage of the pipeline an effect belongs to, numbered as the steps
    of the orchestrator run: chroma acquisition, chord estimation,
    descriptor acquisition, emotion inference, dialogue generation,
    history mutation, result assembly, broadcast. *)
Definition stage (ev : event) : nat :=
  match ev with
  | EvLoadAudio _ _ _ => 1
  | EvComputeChroma _ _ _ _ => 1
  | EvDeriveChroma _ _ => 1
  | EvEstimateChord _ _ => 2
  | EvExtractDescriptors _ _ _ => 3
  | EvPredict _ _ => 4
  | EvGenerate _ _ _ _ _ => 5
  | EvHistoryAppend _ => 6
  | EvHistoryTrim _ => 6
  | EvGameResult _ => 7
  | EvSendMessage _ _ _ => 8
  end.

(** Order by a rank. *)
Definition by_rank {A} (rank : A -> nat) (a b : A) : Prop :=
  (rank a <= rank b)%nat.

(** One effect belongs to a stage no later than the other's. *)
Definition before : event -> event -> Prop := by_rank stage.

Definition is_send (ev : event) : bool :=
  match ev with
  | EvSendMessage _ _ _ => true
  | _ => false
  end.

(** The call raised. *)
Definition raised (ev : event) : option exn :=
  match ev with
  | EvLoadAudio _ _ (Raise e) => Some e
  | EvComputeChroma _ _ _ (Raise e) => Some e
  | EvDeriveChroma _ (Raise e) => Some e
  | EvEstimateChord _ (Raise e) => Some e
  | EvExtractDescriptors _ _ (Raise e) => Some e
  | EvPredict _ (Raise e) => Some e
  | EvGenerate _ _ _ _ (Raise e) => Some e
  | EvSendMessage _ _ (Raise e) => Some e
  | _ => None
  end.

(** The turns the backend produced, in order. *)
Fixpoint generated (evs : list event) : list DialogueTurn :=
  match evs with
  | [] => []
  | EvGenerate _ _ _ _ (Ok turn) :: evs' => turn :: generated evs'
  | _ :: evs' => generated evs'
  end.

(** The history after the turns [turns] were appended one by one to [h],
    each append followed by the trim of [_generate_dialogue]. *)
Definition history_after (limit : Z) (turns : list DialogueTurn)
    (h : list DialogueTurn) : list DialogueTurn :=
  fold_left (fun h turn => slice_from (- limit) (h ++ [turn])) turns h.

(** The last [n] elements. *)
Definition last_n {A} (n : nat) (l : list A) : list A :=
  skipn (List.length l - n) l.

(** The all-zero feature vector over the declared keys. *)
Definition zero_features (FEATURE_KEYS : list string) : PyDict.dict PyFloat.float :=
  PyDict.comprehension (fun _ => PyFloat.zero) FEATURE_KEYS.

(** *** The messages of a [GameResult] *)

Definition chord_messages (c : option Chord.ChordPrediction)
    : list (string * osc_value) :=
  match c with
  | Some c => [("/music/chord/label", OscStr (Chord.label c))]
  | None => []
  end.

Definition emotion_messages (e : option Emotion.EmotionPrediction)
    : list (string * osc_value) :=
  match e with
  | Some e =>
      ("/music/emotion/label", OscStr (Emotion.label e))
      :: ("/music/emotion/confidence", OscFloat (Emotion.confidence e))
      :: map (fun '(l, p) => (("/music/emotion/probability/" ++ l)%string, OscFloat p))
             (Emotion.probabilities e)
  | None => []
  end.

Definition dialogue_messages (d : option DialogueTurn)
    : list (string * osc_value) :=
  match d with
  | Some d => [("/music/llm/content", OscStr (content d));
               ("/music/llm/role", OscStr (role d))]
  | None => []
  end.

Definition descriptor_messages (d : Descriptors) : list (string * osc_value) :=
  map (fun '(k, v) =>
         (("/music/descriptor/" ++ k)%string,
          match v with DFloat f => OscFloat f | DStr s => OscStr s end))
      d.

Definition osc_messages (r : GameResult) : list (string * osc_value) :=
  chord_messages (chord r) ++ emotion_messages (emotion r)
  ++ dialogue_messages (dialogue r) ++ descriptor_messages (descriptors r).

(** [Sent msgs evs out]: the log [evs] of sending [msgs] in order until
    the first failure, and the outcome. *)
Inductive Sent : list (string * osc_value) -> list event -> result unit -> Prop :=
| Sent_done : Sent [] [] (Ok tt)
| Sent_next a v msgs evs out :
    Sent msgs evs out ->
    Sent ((a, v) :: msgs) (EvSendMessage a v (Ok tt) :: evs) out
| Sent_fail a v msgs e :
    Sent ((a, v) :: msgs) [EvSendMessage a v (Raise e)] (Raise e).

(** [s] ends with [suffix]. *)
Definition ends_with (suffix s : string) : bool :=
  let n := String.length s in
  let k := String.length suffix in
  (k <=? n)%nat && String.eqb (String.substring (n - k) k s) suffix.

(** The addresses the written scheme gives the dialogue fields:
    [.../dialogue/content] and [.../dialogue/role]. *)
Definition spec_dialogue_address (a : string) : bool :=
  ends_with "/dialogue/content" a || ends_with "/dialogue/role" a.

Definition sent_address (ev : event) : option string :=
  match ev with
  | EvSendMessage a _ _ => Some a
  | _ => None
  end.

(** The field of the result an OSC address belongs to, by its name
    space. *)
Inductive field : Type := FChord | FEmotion | FDialogue | FDescriptor.

Definition address_field (a : string) : option field :=
  if String.prefix "/music/chord/" a then Some FChord
  else if String.prefix "/music/emotion/" a then Some FEmotion
  else if String.prefix "/music/llm/" a then Some FDialogue
  else if String.prefix "/music/descriptor/" a then Some FDescriptor
  else None.

(** The place of a field in the declaration of [GameResult] (the
    descriptors are sent last); [0] for an address outside the scheme. *)
Definition address_rank (a : string) : nat :=
  match address_field a with
  | Some FChord => 1
  | Some FEmotion => 2
  | Some FDialogue => 3
  | Some FDescriptor => 4
  | None => 0
  end.

Definition address_of (ev : event) : string :=
  match ev with
  | EvSendMessage a _ _ => a
  | _ => ""
  end.

Definition message_rank (ev : event) : nat := address_rank (address_of ev).

(* ================================================================== *)
(** ** Scenarios *)

(** Concrete collaborators, after the scenarios of the design document:
    descriptors [{tempo: 180.0, energy: 0.9}], threshold [0.5], a
    classifier answering "tense" with confidence [0.8], the chord "Dm". *)
Module Scenario.

Definition KEYS : list string := ["tempo"; "energy"].

Definition num (s : string) : PyFloat.float :=
  match PyFloat.of_string s with
  | Some f => f
  | None => PyFloat.nan
  end.

Definition tense (conf : string) : Emotion.EmotionPrediction :=
  {| Emotion.label := "tense";
     Emotion.confidence := num conf;
     Emotion.probabilities :=
       [("joyful", num "0.05"); ("melancholic", num "0.05");
        ("tense", num conf); ("calm", num "0.1")] |}.

Definition Dm : Chord.ChordPrediction := {| Chord.label := "Dm" |}.

Definition reply : DialogueTurn :=
  {| role := "assistant"; content := "Restless, like a storm in D minor." |}.

Definition fast_and_loud : Descriptors :=
  [("tempo", DFloat (num "180.0")); ("energy", DFloat (num "0.9"))].

(** Essentia reports the scale of the key as text. *)
Definition with_text : Descriptors :=
  [("tempo", DStr "fast"); ("energy", DFloat (num "0.9"))].

(** Everything works; a MIDI file named "silence.mid" has no notes. *)
Definition studio (conf : string) (d : Descriptors)
    (backend : result DialogueTurn) (socket : result unit) : World :=
  {| ext_load_audio_samples := fun _ _ sr => Ok ([], sr);
     ext_compute_chroma := fun _ _ _ _ => Ok [];
     ext_derive_chroma_from_midi :=
       fun _ file_path =>
         if String.eqb file_path "silence.mid" then Ok None else Ok (Some []);
     ext_estimate_chord := fun _ _ => Ok (Some Dm);
     ext_extract_essentia_descriptors := fun _ _ _ => Ok d;
     ext_predict := fun _ _ => Ok (tense conf);
     ext_generate := fun _ _ _ _ _ => backend;
     ext_send_message := fun _ _ _ => socket |}.


Definition all_fine : World := studio "0.8" fast_and_loud (Ok reply) (Ok tt).
Definition low_confidence : World := studio "0.3" fast_and_loud (Ok reply) (Ok tt).
Definition text_descriptor : World := studio "0.8" with_text (Ok reply) (Ok tt).
Definition ollama_down : World :=
  studio "0.8" fast_and_loud (Raise (Error "ConnectionError")) (Ok tt).
Definition socket_down : World :=
  studio "0.8" fast_and_loud (Ok reply) (Raise (Error "OSError")).
Definition interrupted : World :=
  studio "0.8" fast_and_loud (Raise (Error "KeyboardInterrupt")) (Ok tt).

Definition with_unreal (c : GameConfig) : GameConfig :=
  {| sample_rate := sample_rate c; hop_length := hop_length c;
     confidence_threshold := confidence_threshold c;
     emotion_labels := emotion_labels c; ollama_model := ollama_model c;
     history_limit := history_limit c;
     unreal_enabled := true;
     unreal_ip := unreal_ip c; unreal_port := unreal_port c |}.

Definition with_history_limit (limit : Z) (c : GameConfig) : GameConfig :=
  {| sample_rate := sample_rate c; hop_length := hop_length c;
     confidence_threshold := confidence_threshold c;
     emotion_labels := emotion_labels c; ollama_model := ollama_model c;
     history_limit := limit;
     unreal_enabled := unreal_enabled c;
     unreal_ip := unreal_ip c; unreal_port := unreal_port c |}.

Definition game : MusicEmotionGame := MusicEmotionGame_init GameConfig_default.

Definition game_unreal : MusicEmotionGame :=
  MusicEmotionGame_init (with_unreal GameConfig_default).

Definition game_limit (limit : Z) : MusicEmotionGame :=
  MusicEmotionGame_init (with_history_limit limit GameConfig_default).

(** A request served by a fresh game object. *)
Definition run (w : World) (g : MusicEmotionGame) (req : request)
    : result GameResult * GameState :=
  process KEYS w g req initial_state.

End Scenario.

(** [sends m msgs]: the computation [m] leaves the history alone and
    does nothing but send [msgs] in order, stopping at the first failure. *)
Definition sends (m : M unit) (msgs : list (string * osc_value)) : Prop :=
  forall st out st',
    m st = (out, st') ->
    history st' = history st
    /\ exists evs, trace st' = trace st ++ evs /\ Sent msgs evs out.

(** What the broadcast step of a game adds to the log. *)
Definition Broadcast (self : MusicEmotionGame) (r : GameResult)
    (evs : list event) (out : result unit) : Prop :=
  match unreal_client self with
  | Some _ => Sent (osc_messages r) evs out
  | None => evs = [] /\ out = Ok tt
  end.

(* ================================================================== *)
(** ** The logs of a request *)

(** The paths through the orchestrator, each with the log it leaves, its
    outcome and the history it ends with.  [h] is the history the request
    starts from.  The lemmas [process_audio_file_runs] and
    [process_midi_file_runs] show that every run of the code follows one
    of these paths. *)
Section Paths.

Variable FEATURE_KEYS : list string.
Variable self : MusicEmotionGame.

(** [_infer_emotion] *)
Inductive EmotionRun (d : Descriptors)
  : list event -> result (option Emotion.EmotionPrediction) -> Prop :=
| ER_coercion e :
    numeric_features FEATURE_KEYS d = Raise e ->
    EmotionRun d [] (Raise e)
| ER_classifier_raises feats e :
    numeric_features FEATURE_KEYS d = Ok feats ->
    EmotionRun d [EvPredict feats (Raise e)] (Raise e)
| ER_gated feats p :
    numeric_features FEATURE_KEYS d = Ok feats ->
    PyFloat.ltb (Emotion.confidence p) (confidence_threshold (config self)) = true ->
    EmotionRun d [EvPredict feats (Ok p)] (Ok None)
| ER_kept feats p :
    numeric_features FEATURE_KEYS d = Ok feats ->
    PyFloat.ltb (Emotion.confidence p) (confidence_threshold (config self)) = false ->
    EmotionRun d [EvPredict feats (Ok p)] (Ok (Some p)).

(** [_generate_dialogue] *)
Inductive DialogueRun (c : option Chord.ChordPrediction)
    (e : option Emotion.EmotionPrediction) (d : Descriptors)
    (h : list DialogueTurn)
  : list event -> result (option DialogueTurn) -> list DialogueTurn -> Prop :=
| DR_skipped :
    c = None \/ e = None ->
    DialogueRun c e d h [] (Ok None) h
| DR_backend_raises c0 e0 x :
    c = Some c0 -> e = Some e0 ->
    DialogueRun c e d h
      [EvGenerate (Emotion.label e0) (Chord.label c0) d h (Raise x)]
      (Raise x) h
| DR_turn c0 e0 turn :
    c = Some c0 -> e = Some e0 ->
    DialogueRun c e d h
      [EvGenerate (Emotion.label e0) (Chord.label c0) d h (Ok turn);
       EvHistoryAppend turn;
       EvHistoryTrim (history_limit (config self))]
      (Ok (Some turn))
      (slice_from (- history_limit (config self)) (h ++ [turn])).

(** The last three statements of both entry points: dialogue, result,
    broadcast. *)
Inductive TailRun (c : option Chord.ChordPrediction)
    (e : option Emotion.EmotionPrediction) (d : Descriptors)
    (h : list DialogueTurn)
  : list event -> result GameResult -> list DialogueTurn -> Prop :=
| TR_no_result evs x h' :
    DialogueRun c e d h evs (Raise x) h' ->
    TailRun c e d h evs (Raise x) h'
| TR_result evs dl h' sent o :
    DialogueRun c e d h evs (Ok dl) h' ->
    Broadcast self
      {| chord := c; emotion := e; descriptors := d; dialogue := dl |} sent o ->
    TailRun c e d h
      (evs ++ EvGameResult
                {| chord := c; emotion := e; descriptors := d; dialogue := dl |}
           :: sent)
      (match o with
       | Ok _ => Ok {| chord := c; emotion := e; descriptors := d; dialogue := dl |}
       | Raise x => Raise x
       end)
      h'.

(** [process_audio_file] *)
Inductive AudioRun (file_path : string) (h : list DialogueTurn)
  : list event -> result GameResult -> list DialogueTurn -> Prop :=
| AR_load x :
    AudioRun file_path h
      [EvLoadAudio file_path (sample_rate (config self)) (Raise x)] (Raise x) h
| AR_chroma s sr x :
    AudioRun file_path h
      [EvLoadAudio file_path (sample_rate (config self)) (Ok (s, sr));
       EvComputeChroma s sr (hop_length (config self)) (Raise x)]
      (Raise x) h
| AR_chord s sr ch x :
    AudioRun file_path h
      [EvLoadAudio file_path (sample_rate (config self)) (Ok (s, sr));
       EvComputeChroma s sr (hop_length (config self)) (Ok ch);
       EvEstimateChord ch (Raise x)]
      (Raise x) h
| AR_descriptors s sr ch c x :
    AudioRun file_path h
      [EvLoadAudio file_path (sample_rate (config self)) (Ok (s, sr));
       EvComputeChroma s sr (hop_length (config self)) (Ok ch);
       EvEstimateChord ch (Ok c);
       EvExtractDescriptors s sr (Raise x)]
      (Raise x) h
| AR_emotion s sr ch c d evs x :
    EmotionRun d evs (Raise x) ->
    AudioRun file_path h
      ([EvLoadAudio file_path (sample_rate (config self)) (Ok (s, sr));
        EvComputeChroma s sr (hop_length (config self)) (Ok ch);
        EvEstimateChord ch (Ok c);
        EvExtractDescriptors s sr (Ok d)] ++ evs)
      (Raise x) h
| AR_tail s sr ch c d evs1 e evs2 out h' :
    EmotionRun d evs1 (Ok e) ->
    TailRun c e d h evs2 out h' ->
    AudioRun file_path h
      ([EvLoadAudio file_path (sample_rate (config self)) (Ok (s, sr));
        EvComputeChroma s sr (hop_length (config self)) (Ok ch);
        EvEstimateChord ch (Ok c);
        EvExtractDescriptors s sr (Ok d)] ++ evs1 ++ evs2)
      out h'.

(** [process_midi_file] *)
Inductive MidiRun (file_path : string) (h : list DialogueTurn)
  : list event -> result GameResult -> list DialogueTurn -> Prop :=
| MR_derive x :
    MidiRun file_path h [EvDeriveChroma file_path (Raise x)] (Raise x) h
| MR_no_chroma evs out h' :
    TailRun None None (zero_descriptors FEATURE_KEYS) h evs out h' ->
    MidiRun file_path h (EvDeriveChroma file_path (Ok None) :: evs) out h'
| MR_chord ch x :
    MidiRun file_path h
      [EvDeriveChroma file_path (Ok (Some ch)); EvEstimateChord ch (Raise x)]
      (Raise x) h
| MR_no_chord ch evs out h' :
    TailRun None None (zero_descriptors FEATURE_KEYS) h evs out h' ->
    MidiRun file_path h
      (EvDeriveChroma file_path (Ok (Some ch)) :: EvEstimateChord ch (Ok None) :: evs)
      out h'
| MR_emotion ch c evs x :
    EmotionRun (zero_descriptors FEATURE_KEYS) evs (Raise x) ->
    MidiRun file_path h
      (EvDeriveChroma file_path (Ok (Some ch))
       :: EvEstimateChord ch (Ok (Some c)) :: evs)
      (Raise x) h
| MR_tail ch c evs1 e evs2 out h' :
    EmotionRun (zero_descriptors FEATURE_KEYS) evs1 (Ok e) ->
    TailRun (Some c) e (zero_descriptors FEATURE_KEYS) h evs2 out h' ->
    MidiRun file_path h
      (EvDeriveChroma file_path (Ok (Some ch))
       :: EvEstimateChord ch (Ok (Some c)) :: evs1 ++ evs2)
      out h'.

Definition RequestRun (req : request) (h : list DialogueTurn)
    (evs : list event) (out : result GameResult) (h' : list DialogueTurn) : Prop :=
  match req with
  | Audio file_path => AudioRun file_path h evs out h'
  | Midi file_path => MidiRun file_path h evs out h'
  end.

End Paths.


(** Both entry points in two phases: the analysis, up to the emotion
    (stages 1 to 4), which may fail, and the tail.  An analysis that fails
    does so in a collaborator call, or in the coercion of the descriptors
    an [extract_essentia_descriptors] call returned. *)
Inductive Staged (FEATURE_KEYS : list string) (self : MusicEmotionGame)
    (h : list DialogueTurn)
  : list event -> result GameResult -> list DialogueTurn -> Prop :=
| Staged_failed pre x :
    Forall (fun ev => (stage ev <= 4)%nat) pre ->
    StronglySorted before pre ->
    (exists ev, In ev pre /\ raised ev = Some x)
    \/ (exists s sr d, In (EvExtractDescriptors s sr (Ok d)) pre
                       /\ numeric_features FEATURE_KEYS d = Raise x) ->
    Staged FEATURE_KEYS self h pre (Raise x) h
| Staged_tail pre c e d evs out h' :
    Forall (fun ev => (stage ev <= 4)%nat) pre ->
    StronglySorted before pre ->
    Forall (fun ev => raised ev = None) pre ->
    (forall feats p, In (EvPredict feats (Ok p)) pre ->
       e = if PyFloat.ltb (Emotion.confidence p) (confidence_threshold (config self))
           then None else Some p) ->
    TailRun self c e d h evs out h' ->
    Staged FEATURE_KEYS self h (pre ++ evs) out h'.

(* ================================================================== *)
(** ** [GameConfig.from_file] *)

(** What [yaml.safe_load] returns for a document made of nulls,
    booleans, integers, floats, strings, sequences and mappings (the
    timestamp, binary and set tags are left out).  A mapping is the
    [dict] it was loaded into: its keys are unique. *)
#[warnings="-register-all"]
Inductive yaml : Type :=
| YNone
| YBool (b : bool)
| YInt (z : Z)
| YFloat (f : PyFloat.float)
| YStr (s : string)
| YList (items : list yaml)
| YDict (items : list (yaml * yaml)).

Definition AttributeError : exn := Error "AttributeError".
Definition TypeError : exn := Error "TypeError".
Definition OverflowError : exn := Error "OverflowError".

(** Sequencing of computations that may raise. *)
Definition and_then {A B} (r : result A) (k : A -> result B) : result B :=
  match r with
  | Ok a => k a
  | Raise e => Raise e
  end.

(** The builtins [from_file] applies to what it reads. *)
Module Builtin.

(** [bool(v)] *)
Definition bool (v : yaml) : Datatypes.bool :=
  match v with
  | YNone => false
  | YBool b => b
  | YInt z => negb (z =? 0)
  | YFloat (S754_zero _) => false
  | YFloat _ => true
  | YStr s => negb (String.eqb s "")
  | YList items => match items with [] => false | _ => true end
  | YDict items => match items with [] => false | _ => true end
  end.

(** [sys.get_int_max_str_digits()] as the interpreter starts with it:
    [int] refuses a string with more digits. *)
Definition int_max_str_digits : nat := 4300.

(** The integer a string denotes for [int]: optional sign, then digits
    with single underscores between them, after stripping the whitespace
    that [float] strips.  [None] stands for [ValueError]. *)
Definition int_of_string (s : string) : option Z :=
  let '(neg, body) := PyFloat.sign (PyFloat.strip (list_ascii_of_string s)) in
  match PyFloat.digitpart body with
  | Some (ds, []) =>
      if (int_max_str_digits <? List.length ds)%nat then None
      else
        let n := fold_right (fun d a => d + 10 * a) 0 ds in
        Some (if neg then - n else n)
  | _ => None
  end.

(** [int(v)]: a float is truncated towards zero. *)
Definition int (v : yaml) : result Z :=
  match v with
  | YInt z => Ok z
  | YBool b => Ok (if b then 1 else 0)
  | YFloat (S754_zero _) => Ok 0
  | YFloat (S754_finite neg m e) =>
      let n := if 0 <=? e then Zpos m * 2 ^ e else Zpos m / 2 ^ (- e) in
      Ok (if neg then - n else n)
  | YFloat (S754_infinity _) => Raise OverflowError
  | YFloat S754_nan => Raise ValueError
  | YStr s =>
      match int_of_string s with
      | Some z => Ok z
      | None => Raise ValueError
      end
  | YNone | YList _ | YDict _ => Raise TypeError
  end.

(** [float(v)]: an integer is rounded to the nearest float, and is too
    large when that is an infinity. *)
Definition float (v : yaml) : result PyFloat.float :=
  match v with
  | YFloat f => Ok f
  | YInt z =>
      match binary_normalize PyFloat.prec PyFloat.emax z 0 false with
      | S754_infinity _ => Raise OverflowError
      | f => Ok f
      end
  | YBool b => Ok (if b then binary_normalize PyFloat.prec PyFloat.emax 1 0 false
                   else PyFloat.zero)
  | YStr s =>
      match PyFloat.of_string s with
      | Some f => Ok f
      | None => Raise ValueError
      end
  | YNone | YList _ | YDict _ => Raise TypeError
  end.

(** [list(v)]: the items of a sequence, the characters of a string, the
    keys of a mapping. *)
Definition list (v : yaml) : result (Datatypes.list yaml) :=
  match v with
  | YList items => Ok items
  | YStr s => Ok (map (fun c => YStr (String c "")) (list_ascii_of_string s))
  | YDict items => Ok (map fst items)
  | YNone | YBool _ | YInt _ | YFloat _ => Raise TypeError
  end.

End Builtin.

(** The first binding of the string key [key]. *)
Fixpoint lookup (key : string) (items : list (yaml * yaml)) : option yaml :=
  match items with
  | [] => None
  | (YStr k, v) :: items' => if String.eqb k key then Some v else lookup key items'
  | _ :: items' => lookup key items'
  end.

(** [raw.get(key, default)]: only a mapping has a [get]. *)
Definition yaml_get (raw : yaml) (key : string) (default : yaml) : result yaml :=
  match raw with
  | YDict items =>
      Ok (match lookup key items with
          | Some v => v
          | None => default
          end)
  | _ => Raise AttributeError
  end.

(** The object [from_file] builds: a [GameConfig] whose labels are
    whatever [list(...)] produced, since the dataclass checks no type. *)
Module Loaded.
Record GameConfig : Type :=
  { sample_rate : Z;
    hop_length : Z;
    confidence_threshold : PyFloat.float;
    emotion_labels : list yaml;
    ollama_model : string;
    history_limit : Z;
    unreal_enabled : bool;
    unreal_ip : string;
    unreal_port : Z }.
End Loaded.

(** [GameConfig()] as [from_file] would return it. *)
Definition Loaded_default : Loaded.GameConfig :=
  {| Loaded.sample_rate := 22050;
     Loaded.hop_length := 512;
     Loaded.confidence_threshold := half;
     Loaded.emotion_labels :=
       [YStr "joyful"; YStr "melancholic"; YStr "tense"; YStr "calm"];
     Loaded.ollama_model := "llama3";
     Loaded.history_limit := 6;
     Loaded.unreal_enabled := false;
     Loaded.unreal_ip := "127.0.0.1";
     Loaded.unreal_port := 7000 |}.

Section FromFile.

(** [str(v)] of a value that is not a string: its [repr], which this
    development does not spell out. *)
Variable repr : yaml -> string.

Definition py_str (v : yaml) : string :=
  match v with
  | YStr s => s
  | _ => repr v
  end.

(** [GameConfig.from_file], from the value [yaml.safe_load] returned;
    [opened] is [Raise] when opening or parsing the file raised. *)
Definition from_file (opened : result yaml) : result Loaded.GameConfig :=
  and_then opened (fun loaded =>
  let raw := if Builtin.bool loaded then loaded else YDict [] in
  and_then (yaml_get raw "unreal" (YDict [])) (fun unreal_config =>
  and_then (and_then (yaml_get raw "sample_rate" (YInt 22050)) Builtin.int)
    (fun sample_rate =>
  and_then (and_then (yaml_get raw "hop_length" (YInt 512)) Builtin.int)
    (fun hop_length =>
  and_then (and_then (yaml_get raw "confidence_threshold" (YFloat half))
                     Builtin.float)
    (fun confidence_threshold =>
  and_then (and_then (yaml_get raw "emotion_labels"
                        (YList (Loaded.emotion_labels Loaded_default)))
                     Builtin.list)
    (fun emotion_labels =>
  and_then (and_then (yaml_get raw "ollama" (YDict []))
                     (fun ollama => yaml_get ollama "model" (YStr "llama3")))
    (fun ollama_model =>
  and_then (and_then (yaml_get raw "history_limit" (YInt 6)) Builtin.int)
    (fun history_limit =>
  and_then (yaml_get unreal_config "enabled" (YBool false)) (fun unreal_enabled =>
  and_then (yaml_get unreal_config "ip" (YStr "127.0.0.1")) (fun unreal_ip =>
  and_then (and_then (yaml_get unreal_config "port" (YInt 7000)) Builtin.int)
    (fun unreal_port =>
  Ok {| Loaded.sample_rate := sample_rate;
        Loaded.hop_length := hop_length;
        Loaded.confidence_threshold := confidence_threshold;
        Loaded.emotion_labels := emotion_labels;
        Loaded.ollama_model := py_str ollama_model;
        Loaded.history_limit := history_limit;
        Loaded.unreal_enabled := Builtin.bool unreal_enabled;
        Loaded.unreal_ip := py_str unreal_ip;
        Loaded.unreal_port := unreal_port |}))))))))))).

End FromFile.

(** A [repr] for the examples: only the constants are spelled out. *)
Module Sample.
Definition repr (v : yaml) : string :=
  match v with
  | YNone => "None"
  | YBool true => "True"
  | YBool false => "False"
  | _ => ""
  end.
End Sample.

(** The keys [from_file] reads at the top level. *)
Definition config_keys : list string :=
  ["unreal"; "sample_rate"; "hop_length"; "confidence_threshold";
   "emotion_labels"; "ollama"; "history_limit"].

(* ================================================================== *)
(** ** [app/main.py]: [_handle_upload] *)

Definition SUPPORTED_AUDIO_TYPES : list string :=
  ["audio/wav"; "audio/x-wav"; "audio/mpeg"; "audio/ogg"; "audio/webm"].

Definition SUPPORTED_MIDI_TYPES : list string :=
  ["audio/midi"; "audio/x-midi"; "application/octet-stream"].

(** The lower-case form of a code point below 256: the letters A to Z,
    and U+00C0 to U+00DE without the multiplication sign U+00D7, lie 32
    below their lower-case forms. *)
Definition lower_char (c : ascii) : ascii :=
  let n := nat_of_ascii c in
  if ((65 <=? n) && (n <=? 90)
      || (192 <=? n) && (n <=? 222) && negb (n =? 215))%nat
  then ascii_of_nat (n + 32) else c.

(** [s.lower()] *)
Definition str_lower (s : string) : string :=
  string_of_list_ascii (map lower_char (list_ascii_of_string s)).

(** The components of a POSIX path, as [pathlib] keeps them: empty
    components and ["."] are dropped.  [cur] is the component being read,
    last character first. *)
Fixpoint path_parts (cur : list ascii) (s : list ascii) : list (list ascii) :=
  let keep c := match c with
                | [] => []
                | ["."%char] => []
                | _ => [rev c]
                end in
  match s with
  | [] => keep cur
  | "/"%char :: s' => keep cur ++ path_parts [] s'
  | c :: s' => path_parts (c :: cur) s'
  end.

(** The index of the last ["."] of [s], counting from [i]. *)
Fixpoint rfind_dot (i : nat) (s : list ascii) : option nat :=
  match s with
  | [] => None
  | c :: s' =>
      match rfind_dot (S i) s' with
      | Some j => Some j
      | None => if Ascii.eqb c "." then Some i else None
      end
  end.

(** [Path(name).suffix]: from the last dot of the final component, when
    that dot is neither its first nor its last character. *)
Definition path_suffix (name : string) : string :=
  let final := last (path_parts [] (list_ascii_of_string name)) [] in
  match rfind_dot 0 final with
  | Some i =>
      if ((0 <? i) && (i <? List.length final - 1))%nat
      then string_of_list_ascii (skipn i final)
      else ""
  | None => ""
  end.

Definition one_of (s : string) (l : list string) : bool :=
  existsb (String.eqb s) l.

(** The uploaded file, as far as [_handle_upload] reads it. *)
Record UploadedFile : Type :=
  { upload_name : string;
    upload_type : option string;
    upload_size : Z }.

(** [uploaded_file.type.lower() if uploaded_file.type else ""] *)
Definition media_type_of (f : UploadedFile) : string :=
  match upload_type f with
  | Some t => if String.eqb t "" then "" else str_lower t
  | None => ""
  end.

Definition is_midi_upload (f : UploadedFile) : bool :=
  one_of (media_type_of f) SUPPORTED_MIDI_TYPES
  || one_of (str_lower (path_suffix (upload_name f))) [".midi"; ".mid"].

Definition is_audio_upload (f : UploadedFile) : bool :=
  one_of (media_type_of f) SUPPORTED_AUDIO_TYPES
  || one_of (str_lower (path_suffix (upload_name f))) [".wav"; ".mp3"; ".ogg"; ".webm"]
  || String.prefix "audio/" (media_type_of f).

(** [isinstance(e, Exception)].  [ValueError] and [KeyError] derive from
    [Exception]; for what a collaborator raises, [outside] tells which
    class names stand for exceptions that derive from [BaseException]
    only. *)
Definition is_Exception (outside : string -> bool) (e : exn) : bool :=
  match e with
  | ValueError => true
  | KeyError _ => true
  | Error name => negb (outside name)
  end.

(** The built-in exceptions that do not derive from [Exception]. *)
Definition builtin_outside (name : string) : bool :=
  one_of name ["BaseException"; "KeyboardInterrupt"; "SystemExit";
               "GeneratorExit"; "BaseExceptionGroup"].

Definition FileNotFoundError : exn := Error "FileNotFoundError".

(** What the [try] statement of [_handle_upload] leaves to be done when
    its [finally] clause is entered: [body] is [Some] of what the call of
    the game did, or [None] when neither branch was taken and control
    falls out of the [try].  An exception that derives from [Exception]
    is handled: [st.error] is called, whose outcome is [st_error], and
    [None] is returned; any other exception stays pending. *)
Definition pending (outside : string -> bool) (st_error : result unit)
    (body : option (result GameResult)) : result (option GameResult) :=
  match body with
  | Some (Ok r) => Ok (Some r)
  | Some (Raise e) =>
      if is_Exception outside e
      then match st_error with
           | Ok _ => Ok None
           | Raise e' => Raise e'
           end
      else Raise e
  | None => Ok None
  end.

(** The [finally] clause: [unlink] is the outcome of
    [temp_path.unlink()].  A [FileNotFoundError] is passed over; any
    other exception replaces what was pending. *)
Definition finally_unlink {A} (unlink : result unit) (p : result A) : result A :=
  match unlink with
  | Ok _ => p
  | Raise (Error name) =>
      if String.eqb name "FileNotFoundError" then p else Raise (Error name)
  | Raise e => Raise e
  end.

(** [_handle_upload].  The upload is an in-memory buffer, read through
    [uploaded_file]; [temp] is the path of the temporary copy of the
    upload, or what creating it raised; [st_error] is the outcome of the
    one statement calling [st.error] that the function may reach,
    [unlink] that of removing the copy. *)
Definition _handle_upload (FEATURE_KEYS : list string) (world : World)
    (game : MusicEmotionGame) (outside : string -> bool)
    (uploaded_file : UploadedFile) (temp : result string)
    (st_error unlink : result unit) : M (option GameResult) :=
  fun st =>
    if upload_size uploaded_file =? 0
    then (match st_error with
          | Ok _ => Ok None
          | Raise e => Raise e
          end, st)
    else
      match temp with
      | Raise e => (Raise e, st)
      | Ok temp_path =>
          let '(body, st') :=
            if is_midi_upload uploaded_file
            then let '(o, st') := process_midi_file FEATURE_KEYS world game temp_path st in
                 (Some o, st')
            else if is_audio_upload uploaded_file
            then let '(o, st') := process_audio_file FEATURE_KEYS world game temp_path st in
                 (Some o, st')
            else (None, st) in
          (finally_unlink unlink (pending outside st_error body), st')
      end.

(* ================================================================== *)
(** * Properties *)

(** ** Floats *)

Lemma SFcompare_swap (x y : spec_float) :
  SFcompare y x = option_map CompOpp (SFcompare x y).
Proof.
  destruct x as [sx|sx| |sx mx ex], y as [sy|sy| |sy my ey]; simpl;
    try reflexivity;
    try (destruct sx; reflexivity);
    try (destruct sy; reflexivity);
    try (destruct sx, sy; reflexivity).
  destruct sx, sy; simpl; try reflexivity;
    rewrite (Z.compare_antisym ex ey);
    destruct (ex ?= ey) eqn:E; simpl; try reflexivity;
    change (Pos.compare_cont Eq my mx) with (Pos.compare my mx);
    change (Pos.compare_cont Eq mx my) with (Pos.compare mx my);
    rewrite (Pos.compare_antisym mx my);
    destruct (mx ?= my)%positive; reflexivity.
Qed.

(** [t <= c] excludes [c < t]. *)
Lemma leb_not_ltb (t c : PyFloat.float) :
  PyFloat.leb t c = true -> PyFloat.ltb c t = false.
Proof.
  unfold PyFloat.leb, PyFloat.ltb, SFleb, SFltb.
  rewrite (SFcompare_swap t c).
  destruct (SFcompare t c) as [[]|]; simpl; congruence.
Qed.

(** ** Dictionaries *)

Lemma get_set_same {V} (k : string) (v : V) (d : PyDict.dict V) :
  PyDict.get k (PyDict.set k v d) = Some v.
Proof.
  induction d as [|[k' x] d IH]; simpl.
  - now rewrite String.eqb_refl.
  - destruct (String.eqb k' k) eqn:E; simpl; rewrite E; auto.
Qed.

Lemma get_set_other {V} (k k' : string) (v : V) (d : PyDict.dict V) :
  k' <> k -> PyDict.get k (PyDict.set k' v d) = PyDict.get k d.
Proof.
  intros Hne.
  induction d as [|[k0 x] d IH]; simpl.
  - destruct (String.eqb_spec k' k); congruence.
  - destruct (String.eqb_spec k0 k').
    + subst. simpl. destruct (String.eqb_spec k' k); congruence.
    + simpl. destruct (String.eqb_spec k0 k); auto.
Qed.

(** The bindings of a comprehension over an initial dictionary. *)
Lemma get_fold_set {V} (f : string -> V) (k : string) (ks : list string) :
  forall d,
    PyDict.get k (fold_left (fun d key => PyDict.set key (f key) d) ks d)
    = if in_dec string_dec k ks then Some (f k) else PyDict.get k d.
Proof.
  induction ks as [|k0 ks IH]; intros d; simpl.
  - reflexivity.
  - rewrite IH.
    destruct (string_dec k0 k) as [->|Hne].
    + destruct (in_dec string_dec k ks); auto using get_set_same.
    + destruct (in_dec string_dec k ks); auto using get_set_other.
Qed.

Lemma get_comprehension {V} (f : string -> V) (k : string) (ks : list string) :
  PyDict.get k (PyDict.comprehension f ks)
  = if in_dec string_dec k ks then Some (f k) else None.
Proof. unfold PyDict.comprehension. now rewrite get_fold_set. Qed.

(** A comprehension whose value expression never raises on the keys is
    the plain comprehension. *)
Lemma comprehension_from_total {V} (f : string -> result V) (g : string -> V)
    (ks : list string) :
  (forall k, In k ks -> f k = Ok (g k)) ->
  forall d,
    comprehension_from f ks d
    = Ok (fold_left (fun d key => PyDict.set key (g key) d) ks d).
Proof.
  induction ks as [|k ks IH]; intros Hf d; simpl.
  - reflexivity.
  - rewrite (Hf k) by (now left). apply IH. intros; apply Hf; now right.
Qed.

(** A comprehension raises what its first failing key raises. *)
Lemma comprehension_from_raises {V} (f : string -> result V) (ks : list string) :
  forall d k,
    In k ks -> is_ok (f k) = false ->
    exists e, comprehension_from f ks d = Raise e
              /\ exists k', In k' ks /\ f k' = Raise e.
Proof.
  induction ks as [|k0 ks IH]; intros d k Hin Hk; simpl in *.
  - contradiction.
  - destruct (f k0) as [v|e] eqn:E.
    + destruct Hin as [->|Hin]; [rewrite E in Hk; discriminate|].
      destruct (IH (PyDict.set k0 v d) k Hin Hk) as (e & He & k' & Hk' & Hf).
      exists e; split; auto. exists k'; auto.
    + exists e; split; auto. exists k0; auto.
Qed.

Lemma set_as_descriptors (k : string) (f : PyFloat.float)
    (d : PyDict.dict PyFloat.float) :
  map (fun '(k, f) => (k, DFloat f)) (PyDict.set k f d)
  = PyDict.set k (DFloat f) (map (fun '(k, f) => (k, DFloat f)) d).
Proof.
  induction d as [|[k0 x] d IH]; simpl; auto.
  destruct (String.eqb k0 k); simpl; congruence.
Qed.

(** ** The zero-filled descriptors of the MIDI path *)

Section ZeroDescriptors.

Variable FEATURE_KEYS : list string.

Lemma get_zero_descriptors (k : string) :
  PyDict.get k (zero_descriptors FEATURE_KEYS)
  = if in_dec string_dec k FEATURE_KEYS then Some (DFloat PyFloat.zero) else None.
Proof.
  exact (get_comprehension (fun _ => DFloat PyFloat.zero) k FEATURE_KEYS).
Qed.

Lemma midi_features_zero :
  midi_features FEATURE_KEYS (zero_descriptors FEATURE_KEYS)
  = Ok (zero_features FEATURE_KEYS).
Proof.
  unfold midi_features, zero_features, PyDict.comprehension.
  apply comprehension_from_total.
  intros k Hk. unfold subscript. rewrite get_zero_descriptors.
  destruct (in_dec string_dec k FEATURE_KEYS); [reflexivity|contradiction].
Qed.

Lemma as_descriptors_zero :
  as_descriptors (zero_features FEATURE_KEYS) = zero_descriptors FEATURE_KEYS.
Proof.
  unfold as_descriptors, zero_features, zero_descriptors, PyDict.comprehension.
  change (@nil (string * desc_value))
    with (map (fun '(k, f) => (k, DFloat f)) (@nil (string * PyFloat.float))).
  generalize (@nil (string * PyFloat.float)).
  induction FEATURE_KEYS as [|k ks IH]; intros d; simpl.
  - reflexivity.
  - rewrite IH. now rewrite set_as_descriptors.
Qed.

Lemma numeric_features_zero :
  numeric_features FEATURE_KEYS (zero_descriptors FEATURE_KEYS)
  = Ok (zero_features FEATURE_KEYS).
Proof.
  unfold numeric_features, zero_features, PyDict.comprehension.
  apply comprehension_from_total.
  intros k _. unfold PyDict.get_default. rewrite get_zero_descriptors.
  destruct (in_dec string_dec k FEATURE_KEYS); reflexivity.
Qed.

End ZeroDescriptors.

(** ** Slices and the bounded history *)

(** [l[-0:]] is [l[0:]], the whole list. *)
Lemma slice_from_zero {A} (l : list A) : slice_from (- 0) l = l.
Proof.
  unfold slice_from, slice_start. simpl.
  destruct (Z.of_nat (List.length l)); reflexivity.
Qed.

Lemma slice_from_last_n {A} (limit : Z) (l : list A) :
  1 <= limit -> slice_from (- limit) l = last_n (Z.to_nat limit) l.
Proof.
  intros H. unfold slice_from, slice_start, last_n.
  destruct (Z.ltb_spec (- limit) 0); [|lia].
  f_equal. lia.
Qed.

Lemma length_last_n {A} (n : nat) (l : list A) :
  List.length (last_n n l) = Nat.min (List.length l) n.
Proof. unfold last_n. rewrite length_skipn. lia. Qed.

(** Trimming, appending and trimming again keeps what trimming once at
    the end keeps, whenever at least one element is kept. *)
Lemma last_n_snoc {A} (n : nat) (l : list A) (x : A) :
  (1 <= n)%nat -> last_n n (last_n n l ++ [x]) = last_n n (l ++ [x]).
Proof.
  intros Hn. unfold last_n at 1 3.
  rewrite !length_app, length_last_n. simpl.
  unfold last_n.
  rewrite !skipn_app, length_skipn.
  replace (List.length l + 1 - n - List.length l)%nat with 0%nat by lia.
  replace (Nat.min (List.length l) n + 1 - n - (List.length l - (List.length l - n)))%nat
    with 0%nat by lia.
  simpl. f_equal.
  rewrite skipn_skipn. f_equal. lia.
Qed.

Lemma history_after_positive (limit : Z) (turns : list DialogueTurn) :
  1 <= limit ->
  forall prev,
    history_after limit turns (last_n (Z.to_nat limit) prev)
    = last_n (Z.to_nat limit) (prev ++ turns).
Proof.
  intros Hl. unfold history_after.
  induction turns as [|t turns IH]; intros prev; simpl.
  - now rewrite app_nil_r.
  - rewrite slice_from_last_n by assumption.
    rewrite last_n_snoc by lia.
    rewrite IH. now rewrite <- app_assoc.
Qed.

Lemma history_after_zero (turns : list DialogueTurn) :
  forall h, history_after 0 turns h = h ++ turns.
Proof.
  unfold history_after.
  induction turns as [|t turns IH]; intros h; simpl.
  - now rewrite app_nil_r.
  - change (slice_from 0 (h ++ [t])) with (slice_from (- 0) (h ++ [t])).
    rewrite slice_from_zero, IH. now rewrite <- app_assoc.
Qed.

Lemma history_after_app (limit : Z) (t1 t2 : list DialogueTurn) (h : list DialogueTurn) :
  history_after limit (t1 ++ t2) h = history_after limit t2 (history_after limit t1 h).
Proof. unfold history_after. apply fold_left_app. Qed.

Lemma generated_app (l1 l2 : list event) :
  generated (l1 ++ l2) = generated l1 ++ generated l2.
Proof.
  induction l1 as [|ev l1 IH]; simpl; auto.
  destruct ev; auto. destruct out; simpl; congruence.
Qed.

(** ** Logs *)

Lemma new_events_app (st st' : GameState) (evs : list event) :
  trace st' = trace st ++ evs -> new_events st st' = evs.
Proof.
  intros H. unfold new_events. rewrite H, skipn_app, skipn_all, Nat.sub_diag.
  reflexivity.
Qed.

(** ** The sink *)

Lemma Sent_app_ok l1 l2 evs1 evs2 out :
  Sent l1 evs1 (Ok tt) -> Sent l2 evs2 out -> Sent (l1 ++ l2) (evs1 ++ evs2) out.
Proof.
  intros H1 H2. remember (Ok tt) as o eqn:Ho.
  induction H1; simpl; auto; try discriminate.
  constructor; auto.
Qed.

Lemma Sent_app_raise l1 l2 evs e :
  Sent l1 evs (Raise e) -> Sent (l1 ++ l2) evs (Raise e).
Proof.
  intros H. remember (Raise e) as o eqn:Ho.
  induction H; simpl; try discriminate.
  - constructor; auto.
  - inversion Ho; subst. constructor.
Qed.

Lemma Sent_is_send msgs evs out :
  Sent msgs evs out -> Forall (fun ev => is_send ev = true) evs.
Proof. induction 1; repeat constructor; auto. Qed.

(** A failed send is the last thing the sink does, and its exception is
    the outcome. *)
Lemma Sent_failure msgs evs out a v e :
  Sent msgs evs out ->
  In (EvSendMessage a v (Raise e)) evs ->
  out = Raise e /\ exists pre, evs = pre ++ [EvSendMessage a v (Raise e)].
Proof.
  induction 1 as [|a0 v0 msgs evs out H IH|a0 v0 msgs e0]; simpl; intros Hin.
  - contradiction.
  - destruct Hin as [Heq|Hin]; [discriminate|].
    destruct (IH Hin) as (-> & pre & ->).
    split; auto. now exists (EvSendMessage a0 v0 (Ok tt) :: pre).
  - destruct Hin as [Heq|[]]. inversion Heq; subst.
    split; auto. now exists [].
Qed.

(** When every send succeeds, every message went out, in order. *)
Lemma Sent_ok msgs evs out :
  Sent msgs evs out ->
  out = Ok tt ->
  evs = map (fun '(a, v) => EvSendMessage a v (Ok tt)) msgs.
Proof.
  induction 1 as [|a v msgs evs out H IH|a v msgs e]; simpl; intros Ho.
  - reflexivity.
  - f_equal. now apply IH.
  - discriminate.
Qed.

Lemma Sent_no_failure msgs evs out :
  Sent msgs evs out ->
  (forall ev, In ev evs -> raised ev = None) ->
  out = Ok tt.
Proof.
  induction 1 as [|a0 v0 msgs evs out H IH|a0 v0 msgs e0]; simpl; intros Hall.
  - reflexivity.
  - apply IH. intros ev Hev. apply Hall. now right.
  - specialize (Hall _ (or_introl eq_refl)). discriminate.
Qed.

Section Sink.

Variable world : World.

Lemma sends_ret : sends (ret tt) [].
Proof.
  intros st out st' H. inversion H; subst. split; auto.
  exists []. rewrite app_nil_r. split; auto. constructor.
Qed.

Lemma sends_send_message a v : sends (send_message world a v) [(a, v)].
Proof.
  intros st out st' H. unfold send_message, call in H. inversion H; subst.
  split; auto. eexists; split; [reflexivity|].
  destruct (ext_send_message world (trace st) a v) as [[]|e]; repeat constructor.
Qed.

Lemma sends_bind m1 m2 l1 l2 :
  sends m1 l1 -> sends m2 l2 -> sends (bind m1 (fun _ => m2)) (l1 ++ l2).
Proof.
  intros H1 H2 st out st' H. unfold bind in H.
  destruct (m1 st) as [[[]|e] st1] eqn:E1.
  - destruct (H1 _ _ _ E1) as (Hh1 & evs1 & Ht1 & S1).
    destruct (H2 _ _ _ H) as (Hh2 & evs2 & Ht2 & S2).
    split; [congruence|].
    exists (evs1 ++ evs2). split.
    + now rewrite Ht2, Ht1, app_assoc.
    + now apply Sent_app_ok.
  - inversion H; subst.
    destruct (H1 _ _ _ E1) as (Hh1 & evs1 & Ht1 & S1).
    split; auto. exists evs1. split; auto. now apply Sent_app_raise.
Qed.

Lemma sends_for_each {A} (body : A -> M unit) (g : A -> string * osc_value)
    (l : list A) :
  (forall x, sends (body x) [g x]) -> sends (for_each body l) (map g l).
Proof.
  intros Hb. induction l as [|x l IH]; simpl.
  - apply sends_ret.
  - apply (sends_bind (body x) (for_each body l) [g x] (map g l)); auto.
Qed.

(** [send_game_result] sends the messages of the result, field by
    field, and nothing else. *)
Lemma send_game_result_sends (r : GameResult) :
  sends (send_game_result world r) (osc_messages r).
Proof.
  unfold send_game_result, osc_messages.
  repeat apply sends_bind.
  - destruct (chord r); simpl; [apply sends_send_message|apply sends_ret].
  - destruct (emotion r) as [e|]; simpl; [|apply sends_ret].
    apply (sends_bind _ _ [_] (_ :: _)); [apply sends_send_message|].
    apply (sends_bind _ _ [_] _); [apply sends_send_message|].
    apply sends_for_each. intros [l p]. apply sends_send_message.
  - destruct (dialogue r) as [d|]; simpl; [|apply sends_ret].
    apply (sends_bind _ _ [_] [_]); apply sends_send_message.
  - unfold descriptor_messages. apply sends_for_each.
    intros [k [f|s0]]; simpl; apply sends_send_message.
Qed.

Lemma broadcast_spec (self : MusicEmotionGame) (r : GameResult) st out st' :
  broadcast world self r st = (out, st') ->
  history st' = history st
  /\ exists evs, trace st' = trace st ++ evs /\ Broadcast self r evs out.
Proof.
  unfold broadcast, Broadcast. destruct (unreal_client self).
  - apply send_game_result_sends.
  - intros H. inversion H; subst. split; auto.
    exists []. now rewrite app_nil_r.
Qed.

End Sink.

(** ** Every run follows one of the paths *)

Section Runs.

Variable FEATURE_KEYS : list string.
Variable world : World.
Variable self : MusicEmotionGame.

Ltac run_step H :=
  match type of H with
  | context [match ?x with Ok _ => _ | Raise _ => _ end] =>
      destruct x as [?|?] eqn:?; simpl in H
  | context [let (_, _) := ?x in _] =>
      destruct x as [? ?] eqn:?; simpl in H
  | context [if ?x then _ else _] =>
      destruct x eqn:?; simpl in H
  end.

Ltac run_done H := inversion H; subst; clear H; simpl.

Lemma _infer_emotion_runs d st out st' :
  _infer_emotion FEATURE_KEYS world self d st = (out, st') ->
  history st' = history st
  /\ exists evs, trace st' = trace st ++ evs
                 /\ EmotionRun FEATURE_KEYS self d evs out.
Proof.
  unfold _infer_emotion, bind, lift, predict, call, ret. intros H.
  repeat run_step H; run_done H; (split; [reflexivity|]).
  - eexists; split; [reflexivity|]. now eapply ER_gated.
  - eexists; split; [reflexivity|]. now eapply ER_kept.
  - eexists; split; [reflexivity|]. now eapply ER_classifier_raises.
  - exists []. rewrite app_nil_r. split; [reflexivity|]. now apply ER_coercion.
Qed.

Lemma _generate_dialogue_runs c e d st out st' :
  _generate_dialogue world self c e d st = (out, st') ->
  exists evs, trace st' = trace st ++ evs
              /\ DialogueRun self c e d (history st) evs out (history st').
Proof.
  unfold _generate_dialogue. intros H.
  destruct c as [c0|]; [destruct e as [e0|]|].
  - unfold bind, get_history, generate, call, history_append, history_trim, ret in H.
    simpl in H. repeat run_step H; run_done H.
    + eexists; split; [now rewrite <- !app_assoc|]. now eapply DR_turn.
    + eexists; split; [reflexivity|]. now eapply DR_backend_raises.
  - run_done H. exists []. rewrite app_nil_r. split; auto.
    apply DR_skipped; auto.
  - run_done H. exists []. rewrite app_nil_r. split; auto.
    apply DR_skipped; auto.
Qed.

Lemma call_inv {A} (oracle : list event -> result A) (ev : result A -> event)
    st o st1 :
  call oracle ev st = (o, st1) -> st1 = log (ev o) st.
Proof. unfold call. intros H. now inversion H. Qed.

(** Split the first [bind] of [H] on the outcome of its first
    computation. *)
Ltac bind_step H :=
  unfold bind at 1 in H;
  match type of H with
  | (let (_, _) := ?x in _) = _ => destruct x as [[?|?] ?] eqn:?
  end.

Ltac called :=
  match goal with
  | E : call _ _ _ = (_, _) |- _ => apply call_inv in E; subst
  end.

(** The statements after the emotion is known. *)
Lemma tail_runs c e d st out st' :
  bind (_generate_dialogue world self c e d)
       (fun dialogue =>
          bind (make_GameResult c e d dialogue)
               (fun result =>
                  bind (broadcast world self result) (fun _ => ret result)))
       st = (out, st') ->
  exists evs, trace st' = trace st ++ evs
              /\ TailRun self c e d (history st) evs out (history st').
Proof.
  intros H. bind_step H.
  - match goal with
    | E : _generate_dialogue _ _ _ _ _ _ = _ |- _ =>
        destruct (_generate_dialogue_runs _ _ _ _ _ _ E) as (evs & Ht & Hd)
    end.
    unfold make_GameResult, emit, bind at 1 2 in H. simpl in H.
    unfold bind, ret in H.
    match type of H with
    | (let (_, _) := ?x in _) = _ => destruct x as [o st2] eqn:Eb
    end.
    destruct (broadcast_spec _ _ _ _ _ _ Eb) as (Hh & sent & Hs & Hb).
    simpl in Hh, Hs.
    exists (evs ++ EvGameResult
                     {| chord := c; emotion := e; descriptors := d; dialogue := a |}
                :: sent).
    assert (Ht' : trace st2
                  = trace st ++ evs ++ EvGameResult
                      {| chord := c; emotion := e; descriptors := d; dialogue := a |}
                    :: sent).
    { rewrite Hs, Ht, <- !app_assoc. reflexivity. }
    destruct o as [[]|x]; inversion H; subst; clear H;
      (split; [exact Ht'|]); rewrite Hh;
      exact (TR_result self c e d (history st) evs a _ sent _ Hd Hb).
  - inversion H; subst; clear H.
    match goal with
    | E : _generate_dialogue _ _ _ _ _ _ = _ |- _ =>
        destruct (_generate_dialogue_runs _ _ _ _ _ _ E) as (evs & Ht & Hd)
    end.
    exists evs. split; auto. now apply TR_no_result.
Qed.

Lemma process_audio_file_runs file_path st out st' :
  process_audio_file FEATURE_KEYS world self file_path st = (out, st') ->
  exists evs, trace st' = trace st ++ evs
              /\ AudioRun FEATURE_KEYS self file_path (history st) evs out (history st').
Proof.
  unfold process_audio_file, load_audio_samples, compute_chroma,
    estimate_chord, extract_essentia_descriptors.
  intros H.
  bind_step H; called; [|inversion H; subst; eexists; split;
                         [reflexivity|apply AR_load]].
  destruct a as [s sr].
  bind_step H; called; [|inversion H; subst; eexists; split;
                         [simpl; now rewrite <- !app_assoc|apply AR_chroma]].
  bind_step H; called; [|inversion H; subst; eexists; split;
                         [simpl; now rewrite <- !app_assoc|apply AR_chord]].
  bind_step H; called; [|inversion H; subst; eexists; split;
                         [simpl; now rewrite <- !app_assoc|apply AR_descriptors]].
  bind_step H.
  - match goal with
    | E : _infer_emotion _ _ _ _ _ = _ |- _ =>
        destruct (_infer_emotion_runs _ _ _ _ E) as (Hh & evs1 & Ht1 & He)
    end.
    destruct (tail_runs _ _ _ _ _ _ H) as (evs2 & Ht2 & Hr).
    rewrite Hh in Hr. simpl in Hr, Ht1.
    eexists. split.
    2: { eapply AR_tail; [exact He|exact Hr]. }
    rewrite Ht2, Ht1. simpl. rewrite <- !app_assoc. reflexivity.
  - inversion H; subst; clear H.
    match goal with
    | E : _infer_emotion _ _ _ _ _ = _ |- _ =>
        destruct (_infer_emotion_runs _ _ _ _ E) as (Hh & evs1 & Ht1 & He)
    end.
    simpl in Hh, Ht1.
    eexists. split.
    2: { rewrite Hh. eapply AR_emotion. exact He. }
    rewrite Ht1. simpl. rewrite <- !app_assoc. reflexivity.
Qed.

(** On the MIDI path the classifier is asked about the zero-filled
    descriptors: both comprehensions succeed. *)
Lemma midi_emotion_eq st :
  bind (lift (midi_features FEATURE_KEYS (zero_descriptors FEATURE_KEYS)))
       (fun features =>
          _infer_emotion FEATURE_KEYS world self (as_descriptors features)) st
  = _infer_emotion FEATURE_KEYS world self (zero_descriptors FEATURE_KEYS) st.
Proof.
  rewrite midi_features_zero. unfold bind at 1, lift.
  now rewrite as_descriptors_zero.
Qed.

Lemma process_midi_file_runs file_path st out st' :
  process_midi_file FEATURE_KEYS world self file_path st = (out, st') ->
  exists evs, trace st' = trace st ++ evs
              /\ MidiRun FEATURE_KEYS self file_path (history st) evs out (history st').
Proof.
  unfold process_midi_file, derive_chroma_from_midi, estimate_chord.
  intros H.
  bind_step H; called; [|inversion H; subst; eexists; split;
                         [reflexivity|apply MR_derive]].
  destruct a as [ch|].
  - bind_step H; called; [|inversion H; subst; eexists; split;
                           [simpl; now rewrite <- !app_assoc|apply MR_chord]].
    destruct a as [c|]; simpl truthy in H; cbv iota in H.
    + unfold bind at 1 in H. rewrite midi_emotion_eq in H.
      match type of H with
      | (let (_, _) := ?m in _) = _ => destruct m as [[e|x] st1] eqn:E
      end;
        destruct (_infer_emotion_runs _ _ _ _ E) as (Hh & evs1 & Ht1 & He);
        simpl in Hh, Ht1.
      * destruct (tail_runs _ _ _ _ _ _ H) as (evs2 & Ht2 & Hr).
        rewrite Hh in Hr.
        eexists. split.
        2: { eapply MR_tail; [exact He|exact Hr]. }
        rewrite Ht2, Ht1. simpl. rewrite <- !app_assoc. reflexivity.
      * inversion H; subst; clear H.
        eexists. split.
        2: { rewrite Hh. eapply MR_emotion. exact He. }
        rewrite Ht1. simpl. rewrite <- !app_assoc. reflexivity.
    + unfold bind at 1, ret at 1 in H.
      destruct (tail_runs _ _ _ _ _ _ H) as (evs2 & Ht2 & Hr).
      simpl in Hr, Ht2.
      eexists. split.
      2: { eapply MR_no_chord. exact Hr. }
      rewrite Ht2. simpl. rewrite <- !app_assoc. reflexivity.
  - unfold bind at 1, ret at 1 in H. simpl truthy in H. cbv iota in H.
    unfold bind at 1, ret at 1 in H.
    destruct (tail_runs _ _ _ _ _ _ H) as (evs2 & Ht2 & Hr).
    simpl in Hr, Ht2.
    eexists. split.
    2: { eapply MR_no_chroma. exact Hr. }
    rewrite Ht2. simpl. rewrite <- !app_assoc. reflexivity.
Qed.

Lemma process_runs req st out st' :
  process FEATURE_KEYS world self req st = (out, st') ->
  exists evs, trace st' = trace st ++ evs
              /\ RequestRun FEATURE_KEYS self req (history st) evs out (history st').
Proof.
  destruct req; simpl.
  - apply process_audio_file_runs.
  - apply process_midi_file_runs.
Qed.

End Runs.

(** ** Lists in the order of a rank *)

Section Ranked.

Context {A : Type} (rank : A -> nat).

Lemma ranked_same (n : nat) (l : list A) :
  Forall (fun x => rank x = n) l -> StronglySorted (by_rank rank) l.
Proof.
  induction 1 as [|x l Hx Hl IH]; constructor; auto.
  eapply Forall_impl; [|exact Hl]. unfold by_rank. simpl. intros; lia.
Qed.

Lemma ranked_concat (l1 l2 : list A) :
  StronglySorted (by_rank rank) l1 -> StronglySorted (by_rank rank) l2 ->
  (forall a b, In a l1 -> In b l2 -> by_rank rank a b) ->
  StronglySorted (by_rank rank) (l1 ++ l2).
Proof.
  induction 1 as [|a l1 Hs IH Ha]; simpl; intros H2 Hc; auto.
  constructor.
  - apply IH; [assumption|].
    intros a' b' Ha' Hb'. apply Hc; [now right|assumption].
  - apply Forall_app. split; [assumption|].
    apply Forall_forall. intros b Hb. apply Hc; [now left|assumption].
Qed.

Lemma ranked_app (n : nat) (l1 l2 : list A) :
  StronglySorted (by_rank rank) l1 -> StronglySorted (by_rank rank) l2 ->
  Forall (fun x => (rank x <= n)%nat) l1 ->
  Forall (fun x => (n <= rank x)%nat) l2 ->
  StronglySorted (by_rank rank) (l1 ++ l2).
Proof.
  intros S1 S2 F1 F2. apply ranked_concat; auto.
  intros a b Ha Hb. rewrite Forall_forall in F1, F2.
  specialize (F1 _ Ha). specialize (F2 _ Hb). unfold by_rank. lia.
Qed.

End Ranked.

(** ** What the paths have in common *)

Section RunFacts.

Variable FEATURE_KEYS : list string.
Variable self : MusicEmotionGame.

Lemma EmotionRun_stage d evs out :
  EmotionRun FEATURE_KEYS self d evs out ->
  Forall (fun ev => stage ev = 4%nat) evs.
Proof. destruct 1; repeat constructor. Qed.

Lemma EmotionRun_gate d evs e feats p :
  EmotionRun FEATURE_KEYS self d evs (Ok e) ->
  In (EvPredict feats (Ok p)) evs ->
  e = if PyFloat.ltb (Emotion.confidence p) (confidence_threshold (config self))
      then None else Some p.
Proof.
  inversion 1; subst; simpl; intros [Heq|[]]; inversion Heq; subst;
    match goal with H : PyFloat.ltb _ _ = _ |- _ => now rewrite H end.
Qed.

Lemma EmotionRun_ok d evs e :
  EmotionRun FEATURE_KEYS self d evs (Ok e) ->
  Forall (fun ev => raised ev = None) evs.
Proof. inversion 1; subst; repeat constructor. Qed.

Lemma EmotionRun_raise d evs x :
  EmotionRun FEATURE_KEYS self d evs (Raise x) ->
  (exists ev, In ev evs /\ raised ev = Some x)
  \/ (evs = [] /\ numeric_features FEATURE_KEYS d = Raise x).
Proof.
  inversion 1; subst.
  - right; auto.
  - left. eexists; split; [now left|reflexivity].
Qed.

Lemma DialogueRun_stage c e d h evs out h' :
  DialogueRun self c e d h evs out h' ->
  Forall (fun ev => (5 <= stage ev <= 6)%nat) evs.
Proof. destruct 1; repeat constructor. Qed.

Lemma DialogueRun_sorted c e d h evs out h' :
  DialogueRun self c e d h evs out h' -> StronglySorted before evs.
Proof. destruct 1; repeat constructor; unfold before, by_rank; simpl; lia. Qed.

Lemma Broadcast_stage r sent o :
  Broadcast self r sent o -> Forall (fun ev => stage ev = 8%nat) sent.
Proof.
  unfold Broadcast. destruct (unreal_client self).
  - intros H. apply Sent_is_send in H.
    eapply Forall_impl; [|exact H]. intros [] Hs; simpl in *; congruence.
  - intros [-> _]. constructor.
Qed.

Lemma TailRun_stage c e d h evs out h' :
  TailRun self c e d h evs out h' ->
  Forall (fun ev => (5 <= stage ev)%nat) evs.
Proof.
  destruct 1 as [evs x h' Hd|evs dl h' sent o Hd Hb].
  - eapply Forall_impl; [|exact (DialogueRun_stage _ _ _ _ _ _ _ Hd)].
    simpl; intros; lia.
  - apply Forall_app. split.
    + eapply Forall_impl; [|exact (DialogueRun_stage _ _ _ _ _ _ _ Hd)].
      simpl; intros; lia.
    + constructor; [simpl; lia|].
      eapply Forall_impl; [|exact (Broadcast_stage _ _ _ Hb)].
      simpl; intros; lia.
Qed.

Lemma TailRun_sorted c e d h evs out h' :
  TailRun self c e d h evs out h' -> StronglySorted before evs.
Proof.
  destruct 1 as [evs x h' Hd|evs dl h' sent o Hd Hb].
  - exact (DialogueRun_sorted _ _ _ _ _ _ _ Hd).
  - pose proof (DialogueRun_stage _ _ _ _ _ _ _ Hd) as F1.
    pose proof (Broadcast_stage _ _ _ Hb) as F2.
    apply ranked_concat.
    + exact (DialogueRun_sorted _ _ _ _ _ _ _ Hd).
    + constructor.
      * exact (ranked_same stage _ _ F2).
      * eapply Forall_impl; [|exact F2]. unfold before, by_rank. simpl. intros; lia.
    + intros a b Ha [<-|Hb'].
      * rewrite Forall_forall in F1. specialize (F1 _ Ha).
        unfold before, by_rank. simpl. lia.
      * rewrite Forall_forall in F1, F2.
        specialize (F1 _ Ha). specialize (F2 _ Hb'). unfold before, by_rank. lia.
Qed.

Lemma TailRun_result c e d h evs r h' :
  TailRun self c e d h evs (Ok r) h' ->
  chord r = c /\ emotion r = e /\ descriptors r = d.
Proof.
  inversion 1 as [|evs0 dl h0 sent o Hd Hb Hevs Hout Hh]; subst.
  destruct o; inversion Hout; subst; auto.
Qed.

End RunFacts.

Ltac absurd_stage :=
  match goal with
  | H : In ?ev ?evs, F : Forall _ ?evs |- _ =>
      rewrite Forall_forall in F; specialize (F _ H); simpl in F;
      first [lia | discriminate]
  end.

(** ** The two phases of a request *)

Section Phases.

Variable FEATURE_KEYS : list string.
Variable self : MusicEmotionGame.

(** [Forall P (e1 :: ... :: en :: evs)] for explicit events followed by
    a list all at stage 4. *)
Ltac all_events F :=
  repeat (apply Forall_cons; [unfold before, by_rank; simpl; first [lia|reflexivity]|]);
  first [ apply Forall_nil
        | eapply Forall_impl; [|exact F]; unfold before, by_rank; simpl; intros; lia ].

Ltac sorted_events F :=
  repeat (apply SSorted_cons; [|all_events F]);
  first [ apply SSorted_nil | exact (ranked_same stage _ _ F) ].

(** One of up to four explicit events raised. *)
Ltac raised_event :=
  left; eexists; split;
  [ simpl; ((left; reflexivity) + (right; left; reflexivity)
            + (right; right; left; reflexivity)
            + (right; right; right; left; reflexivity))
  | reflexivity ].

Lemma analysis_raised (pre evs : list event) (x : exn) :
  (exists ev, In ev evs /\ raised ev = Some x) ->
  exists ev, In ev (pre ++ evs) /\ raised ev = Some x.
Proof.
  intros (ev & Hin & Hr). exists ev. split; auto.
  apply in_or_app. now right.
Qed.

Lemma AudioRun_staged file_path h evs out h' :
  AudioRun FEATURE_KEYS self file_path h evs out h' ->
  Staged FEATURE_KEYS self h evs out h'.
Proof.
  assert (F0 : Forall (fun ev => stage ev = 4%nat) []) by constructor.
  destruct 1 as [x|s sr x|s sr ch x|s sr ch c x|s sr ch c d evs x He
                |s sr ch c d evs1 e evs2 out h' He Ht].
  1-4: apply Staged_failed; [all_events F0|sorted_events F0|raised_event].
  - pose proof (EmotionRun_stage _ _ _ _ _ He) as F1.
    apply Staged_failed; [simpl; all_events F1|simpl; sorted_events F1|].
    destruct (EmotionRun_raise _ _ _ _ _ He) as [Hr|[-> Hc]].
    + left. now apply analysis_raised.
    + right. exists s, sr, d. split; [simpl; tauto|assumption].
  - pose proof (EmotionRun_stage _ _ _ _ _ He) as F1.
    pose proof (EmotionRun_ok _ _ _ _ _ He) as F2.
    rewrite app_assoc.
    eapply Staged_tail; [simpl; all_events F1|simpl; sorted_events F1| | |exact Ht].
    + simpl. repeat (apply Forall_cons; [reflexivity|]). exact F2.
    + intros feats p Hin. simpl in Hin.
      repeat (destruct Hin as [Hin|Hin]; [discriminate|]).
      exact (EmotionRun_gate _ _ _ _ _ _ _ He Hin).
Qed.

Lemma MidiRun_staged file_path h evs out h' :
  MidiRun FEATURE_KEYS self file_path h evs out h' ->
  Staged FEATURE_KEYS self h evs out h'.
Proof.
  assert (F0 : Forall (fun ev => stage ev = 4%nat) []) by constructor.
  destruct 1 as [x|evs out h' Ht|ch x|ch evs out h' Ht|ch c evs x He
                |ch c evs1 e evs2 out h' He Ht].
  - apply Staged_failed; [all_events F0|sorted_events F0|raised_event].
  - change (EvDeriveChroma file_path (Ok None) :: evs)
      with ([EvDeriveChroma file_path (Ok None)] ++ evs).
    eapply Staged_tail; [all_events F0|sorted_events F0| | |exact Ht].
    + repeat constructor.
    + intros feats p [Hin|[]]. discriminate.
  - apply Staged_failed; [all_events F0|sorted_events F0|raised_event].
  - change (EvDeriveChroma file_path (Ok (Some ch))
            :: EvEstimateChord ch (Ok None) :: evs)
      with ([EvDeriveChroma file_path (Ok (Some ch));
             EvEstimateChord ch (Ok None)] ++ evs).
    eapply Staged_tail; [all_events F0|sorted_events F0| | |exact Ht].
    + repeat constructor.
    + intros feats p Hin. simpl in Hin.
      repeat (destruct Hin as [Hin|Hin]; [discriminate|]). contradiction.
  - pose proof (EmotionRun_stage _ _ _ _ _ He) as F1.
    apply Staged_failed; [all_events F1|sorted_events F1|].
    destruct (EmotionRun_raise _ _ _ _ _ He) as [Hr|[-> Hc]].
    + left.
      exact (analysis_raised [EvDeriveChroma file_path (Ok (Some ch));
                              EvEstimateChord ch (Ok (Some c))] evs x Hr).
    + rewrite numeric_features_zero in Hc. discriminate.
  - pose proof (EmotionRun_stage _ _ _ _ _ He) as F1.
    pose proof (EmotionRun_ok _ _ _ _ _ He) as F2.
    change (EvDeriveChroma file_path (Ok (Some ch))
            :: EvEstimateChord ch (Ok (Some c)) :: evs1 ++ evs2)
      with (([EvDeriveChroma file_path (Ok (Some ch));
              EvEstimateChord ch (Ok (Some c))] ++ evs1) ++ evs2).
    eapply Staged_tail; [simpl; all_events F1|simpl; sorted_events F1| | |exact Ht].
    + simpl. repeat (apply Forall_cons; [reflexivity|]). exact F2.
    + intros feats p Hin. simpl in Hin.
      repeat (destruct Hin as [Hin|Hin]; [discriminate|]).
      exact (EmotionRun_gate _ _ _ _ _ _ _ He Hin).
Qed.

Lemma RequestRun_staged req h evs out h' :
  RequestRun FEATURE_KEYS self req h evs out h' ->
  Staged FEATURE_KEYS self h evs out h'.
Proof.
  destruct req; simpl; [apply AudioRun_staged|apply MidiRun_staged].
Qed.

End Phases.

(** Every request runs in the two phases. *)
Lemma process_staged FEATURE_KEYS world self req st out st' :
  process FEATURE_KEYS world self req st = (out, st') ->
  trace st' = trace st ++ new_events st st'
  /\ Staged FEATURE_KEYS self (history st) (new_events st st') out (history st').
Proof.
  intros H. destruct (process_runs _ _ _ _ _ _ _ H) as (evs & Ht & Hr).
  rewrite (new_events_app _ _ _ Ht). split; auto.
  exact (RequestRun_staged _ _ req _ _ _ _ Hr).
Qed.

(** ** The tail: dialogue, result, broadcast *)

Section TailFacts.

Variable self : MusicEmotionGame.

Lemma Broadcast_failure r sent o a v x :
  Broadcast self r sent o ->
  In (EvSendMessage a v (Raise x)) sent ->
  o = Raise x /\ exists pre, sent = pre ++ [EvSendMessage a v (Raise x)].
Proof.
  unfold Broadcast. destruct (unreal_client self).
  - apply Sent_failure.
  - intros [-> _] [].
Qed.

Lemma Broadcast_no_failure r sent o :
  Broadcast self r sent o ->
  (forall ev, In ev sent -> raised ev = None) ->
  o = Ok tt.
Proof.
  unfold Broadcast. destruct (unreal_client self).
  - apply Sent_no_failure.
  - now intros [_ ->].
Qed.

(** A dialogue that is skipped leaves no trace. *)
Lemma DialogueRun_skipped c e d h evs out h' :
  DialogueRun self c e d h evs out h' ->
  c = None \/ e = None ->
  evs = [] /\ out = Ok None /\ h' = h.
Proof.
  destruct 1 as [Hs|c0 e0 x -> ->|c0 e0 turn -> ->]; intros [Hn|Hn];
    try discriminate; auto.
Qed.

(** The backend is called with the labels of a chord and an emotion
    that are both there. *)
Lemma DialogueRun_attempt c e d h evs out h' el cl d0 h0 o :
  DialogueRun self c e d h evs out h' ->
  In (EvGenerate el cl d0 h0 o) evs ->
  exists c0 e0, c = Some c0 /\ e = Some e0
                /\ cl = Chord.label c0 /\ el = Emotion.label e0
                /\ d0 = d /\ h0 = h.
Proof.
  destruct 1 as [Hs|c0 e0 x -> ->|c0 e0 turn -> ->]; simpl; intros Hin.
  - contradiction.
  - destruct Hin as [Heq|[]]. inversion Heq; subst. now exists c0, e0.
  - destruct Hin as [Heq|[Heq|[Heq|[]]]]; try discriminate.
    inversion Heq; subst. now exists c0, e0.
Qed.


Lemma DialogueRun_history c e d h evs out h' :
  DialogueRun self c e d h evs out h' ->
  h' = history_after (history_limit (config self)) (generated evs) h.
Proof. destruct 1; reflexivity. Qed.

Lemma DialogueRun_raise c e d h evs x h' :
  DialogueRun self c e d h evs (Raise x) h' ->
  exists ev, In ev evs /\ raised ev = Some x.
Proof. inversion 1; subst. eexists; split; [now left|reflexivity]. Qed.

(** The turn appended to the history is the turn the backend returned,
    and is the dialogue of the result. *)
Lemma DialogueRun_mutation c e d h evs out h' :
  DialogueRun self c e d h evs out h' ->
  forall ev, In ev evs -> stage ev = 6%nat \/ (exists t, generated [ev] = [t]) ->
  exists el cl t,
    evs = [EvGenerate el cl d h (Ok t); EvHistoryAppend t;
           EvHistoryTrim (history_limit (config self))]
    /\ out = Ok (Some t).
Proof.
  destruct 1 as [Hs|c0 e0 x -> ->|c0 e0 turn -> ->]; simpl; intros ev Hin Hev.
  - contradiction.
  - destruct Hin as [<-|[]]. destruct Hev as [Hev|[t Hev]]; discriminate.
  - now exists (Emotion.label e0), (Chord.label c0), turn.
Qed.

Lemma generated_none (evs : list event) :
  Forall (fun ev => stage ev <> 5%nat) evs -> generated evs = [].
Proof.
  induction 1 as [|ev evs Hev _ IH]; simpl; auto.
  destruct ev; auto. simpl in Hev. congruence.
Qed.

Lemma TailRun_history c e d h evs out h' :
  TailRun self c e d h evs out h' ->
  h' = history_after (history_limit (config self)) (generated evs) h.
Proof.
  destruct 1 as [evs x h' Hd|evs dl h' sent o Hd Hb].
  - exact (DialogueRun_history _ _ _ _ _ _ _ Hd).
  - rewrite generated_app. simpl.
    rewrite (generated_none sent), app_nil_r.
    + exact (DialogueRun_history _ _ _ _ _ _ _ Hd).
    + eapply Forall_impl; [|exact (Broadcast_stage _ _ _ _ Hb)].
      simpl. intros; lia.
Qed.

(** The parts of the log of a tail that got as far as the result. *)
Lemma TailRun_inv c e d h evs out h' :
  TailRun self c e d h evs out h' ->
  exists devs dout,
    DialogueRun self c e d h devs dout h'
    /\ ((exists x, dout = Raise x /\ out = Raise x /\ evs = devs)
        \/ (exists dl sent o,
              dout = Ok dl
              /\ Broadcast self
                   {| chord := c; emotion := e; descriptors := d; dialogue := dl |}
                   sent o
              /\ evs = devs ++ EvGameResult
                                 {| chord := c; emotion := e;
                                    descriptors := d; dialogue := dl |} :: sent
              /\ out = match o with
                       | Ok _ => Ok {| chord := c; emotion := e;
                                       descriptors := d; dialogue := dl |}
                       | Raise x => Raise x
                       end)).
Proof.
  destruct 1 as [evs x h' Hd|evs dl h' sent o Hd Hb].
  - exists evs, (Raise x). split; auto. left. now exists x.
  - exists evs, (Ok dl). split; auto. right. now exists dl, sent, o.
Qed.

End TailFacts.

(* ================================================================== *)
(** * The contract of the orchestrator *)

(** ** Confidence gating *)

(** C4.  Whenever the classifier returned a prediction [p] during a
    request that returned a result: if the confidence of [p] is strictly
    below the configured threshold, the emotion of the result is unset,
    whatever [p] was; if the confidence is greater than or equal to the
    threshold, the emotion of the result is [p]. *)
Theorem confidence_gating FEATURE_KEYS world self req st out st' feats p r :
  process FEATURE_KEYS world self req st = (out, st') ->
  In (EvPredict feats (Ok p)) (new_events st st') ->
  out = Ok r ->
  (PyFloat.ltb (Emotion.confidence p) (confidence_threshold (config self)) = true ->
   emotion r = None)
  /\ (PyFloat.leb (confidence_threshold (config self)) (Emotion.confidence p) = true ->
      emotion r = Some p).
Proof.
  intros Hrun Hin ->.
  destruct (process_staged _ _ _ _ _ _ _ Hrun) as (_ & Hs).
  remember (new_events st st') as all eqn:Eall.
  remember (history st') as hist' eqn:Eh.
  remember (Ok r) as out eqn:Eout.
  destruct Hs as [|pre c e d evs out h' Fpre _ _ Hgate Ht]; [discriminate|].
  subst out.
  pose proof (TailRun_stage _ _ _ _ _ _ _ _ Ht) as Ftail.
  destruct (TailRun_result _ _ _ _ _ _ _ _ Ht) as (_ & -> & _).
  apply in_app_or in Hin. destruct Hin as [Hin|Hin]; [|absurd_stage].
  rewrite (Hgate _ _ Hin). split; intros Hc.
  - now rewrite Hc.
  - now rewrite (leb_not_ltb _ _ Hc).
Qed.

Lemma confidence_gating_witness :
  In (EvPredict [("tempo", Scenario.num "180.0"); ("energy", Scenario.num "0.9")]
        (Ok (Scenario.tense "0.3")))
     (new_events initial_state
        (snd (Scenario.run Scenario.low_confidence Scenario.game (Audio "take1.wav"))))
  /\ (exists r,
        fst (Scenario.run Scenario.low_confidence Scenario.game (Audio "take1.wav"))
        = Ok r
        /\ emotion r = None).
Proof.
  set (run := Scenario.run Scenario.low_confidence Scenario.game (Audio "take1.wav")).
  assert (Hin : In (EvPredict [("tempo", Scenario.num "180.0");
                               ("energy", Scenario.num "0.9")]
                      (Ok (Scenario.tense "0.3")))
                   (new_events initial_state (snd run))).
  { vm_compute. tauto. }
  split; [exact Hin|].
  eexists. split; [vm_compute; reflexivity|].
  refine (proj1 (confidence_gating Scenario.KEYS Scenario.low_confidence
                   Scenario.game (Audio "take1.wav") initial_state
                   (fst run) (snd run) _ _ _
                   (surjective_pairing run) Hin _) _);
    vm_compute; reflexivity.
Defined.

(** ** Dialogue generation gate *)

(** C5.  In every request that returns a result whose chord is unset or
    whose gated emotion is unset, the dialogue of the result is unset, the
    text-generation backend was not called and the conversation history
    is as it was.  Whenever the backend is called, it is with the labels
    of a chord and of a gated emotion that are both present, and they are
    the chord and the emotion of the result if one is returned. *)
Theorem dialogue_gate FEATURE_KEYS world self req st out st' :
  process FEATURE_KEYS world self req st = (out, st') ->
  (forall r,
     out = Ok r ->
     chord r = None \/ emotion r = None ->
     dialogue r = None
     /\ history st' = history st
     /\ forall el cl d h o, ~ In (EvGenerate el cl d h o) (new_events st st'))
  /\ (forall el cl d h o,
        In (EvGenerate el cl d h o) (new_events st st') ->
        exists c e,
          cl = Chord.label c /\ el = Emotion.label e
          /\ forall r, out = Ok r -> chord r = Some c /\ emotion r = Some e).
Proof.
  intros Hrun.
  destruct (process_staged _ _ _ _ _ _ _ Hrun) as (_ & Hs).
  remember (new_events st st') as all eqn:Eall.
  remember (history st') as hist' eqn:Eh.
  clear Hrun Eall.
  destruct Hs as [pre x Fpre _ _|pre c e d evs out h' Fpre _ _ _ Ht].
  - split.
    + intros r Hr. discriminate.
    + intros el cl d h o Hin. absurd_stage.
  - pose proof (TailRun_stage _ _ _ _ _ _ _ _ Ht) as Ftail.
    destruct (TailRun_inv _ _ _ _ _ _ _ _ Ht)
      as (devs & dout & Hd & [(x & -> & -> & ->)|(dl & sent & o & -> & Hb & -> & ->)]).
    + split.
      * intros r Hr. discriminate.
      * intros el cl d0 h0 o Hin.
        apply in_app_or in Hin. destruct Hin as [Hin|Hin]; [absurd_stage|].
        destruct (DialogueRun_attempt _ _ _ _ _ _ _ _ _ _ _ _ _ Hd Hin)
          as (c0 & e0 & -> & -> & -> & -> & _).
        exists c0, e0. split; [reflexivity|split; [reflexivity|]].
        intros r Hr. discriminate.
    + pose proof (Broadcast_stage _ _ _ _ Hb) as Fsent.
      split.
      * intros r Hr Hnone.
        assert (Hr' : r = {| chord := c; emotion := e; descriptors := d;
                             dialogue := dl |})
          by (destruct o; congruence).
        subst r. simpl in Hnone.
        destruct (DialogueRun_skipped _ _ _ _ _ _ _ _ Hd Hnone) as (-> & Hdl & ->).
        inversion Hdl; subst. simpl. repeat split; auto.
        intros el cl d0 h0 o' Hin.
        apply in_app_or in Hin. destruct Hin as [Hin|[Hin|Hin]];
          [absurd_stage|discriminate|absurd_stage].
      * intros el cl d0 h0 o' Hin.
        apply in_app_or in Hin. destruct Hin as [Hin|Hin]; [absurd_stage|].
        apply in_app_or in Hin. destruct Hin as [Hin|[Hin|Hin]];
          [|discriminate|absurd_stage].
        destruct (DialogueRun_attempt _ _ _ _ _ _ _ _ _ _ _ _ _ Hd Hin)
          as (c0 & e0 & -> & -> & -> & -> & _).
        exists c0, e0. split; [reflexivity|split; [reflexivity|]].
        intros r Hr. destruct o; inversion Hr; subst; auto.
Qed.

Lemma dialogue_gate_witness :
  exists r,
    fst (Scenario.run Scenario.low_confidence Scenario.game (Audio "take1.wav")) = Ok r
    /\ chord r = Some Scenario.Dm /\ emotion r = None
    /\ dialogue r = None
    /\ history (snd (Scenario.run Scenario.low_confidence Scenario.game
                       (Audio "take1.wav"))) = [].
Proof.
  set (run := Scenario.run Scenario.low_confidence Scenario.game (Audio "take1.wav")).
  eexists.
  assert (Hout : fst run = Ok _) by (vm_compute; reflexivity).
  split; [exact Hout|].
  split; [reflexivity|]. split; [reflexivity|].
  destruct (proj1 (dialogue_gate Scenario.KEYS Scenario.low_confidence
                     Scenario.game (Audio "take1.wav") initial_state
                     (fst run) (snd run) (surjective_pairing run))
              _ Hout (or_intror eq_refl)) as (Hd & Hh & _).
  split; [exact Hd|exact Hh].
Defined.

(** ** Failures of the optional stages *)

Lemma sends_all_fine (sent : list event) :
  Forall (fun ev => stage ev = 8%nat) sent ->
  (forall a v x, ~ In (EvSendMessage a v (Raise x)) sent) ->
  forall ev, In ev sent -> raised ev = None.
Proof.
  intros F Hno ev Hin.
  rewrite Forall_forall in F. specialize (F _ Hin).
  destruct ev; try discriminate.
  destruct out as [u|x]; [reflexivity|].
  destruct (Hno _ _ _ Hin).
Qed.

(** C1, as the code has it.  A failure of the broadcast sink is not
    caught.  In every request in which a [send_message] of the sink
    raises, that call is the last thing the request does (no later
    message is sent), its exception is the outcome of the request, and no
    [GameResult] is returned.  In a request that assembled a result and in
    which no send raised, the result returned is the result assembled. *)
Theorem sink_failure_propagates FEATURE_KEYS world self req st out st' :
  process FEATURE_KEYS world self req st = (out, st') ->
  (forall a v x,
     In (EvSendMessage a v (Raise x)) (new_events st st') ->
     out = Raise x
     /\ exists pre, new_events st st' = pre ++ [EvSendMessage a v (Raise x)])
  /\ (forall r,
        In (EvGameResult r) (new_events st st') ->
        (forall a v x, ~ In (EvSendMessage a v (Raise x)) (new_events st st')) ->
        out = Ok r).
Proof.
  intros Hrun.
  destruct (process_staged _ _ _ _ _ _ _ Hrun) as (_ & Hs).
  remember (new_events st st') as all eqn:Eall.
  remember (history st') as hist' eqn:Eh.
  clear Hrun Eall.
  destruct Hs as [pre x0 Fpre _ _|pre c e d evs out h' Fpre _ _ _ Ht].
  - split; [intros a v x Hin|intros r Hin _]; absurd_stage.
  - destruct (TailRun_inv _ _ _ _ _ _ _ _ Ht)
      as (devs & dout & Hd & [(x0 & -> & -> & ->)|(dl & sent & o & -> & Hb & -> & ->)]);
      pose proof (DialogueRun_stage _ _ _ _ _ _ _ _ Hd) as Fd.
    + split; [intros a v x Hin|intros r Hin _];
        (apply in_app_or in Hin; destruct Hin as [Hin|Hin]; absurd_stage).
    + pose proof (Broadcast_stage _ _ _ _ Hb) as Fsent.
      split.
      * intros a v x Hin.
        apply in_app_or in Hin. destruct Hin as [Hin|Hin]; [absurd_stage|].
        apply in_app_or in Hin. destruct Hin as [Hin|[Hin|Hin]];
          [absurd_stage|discriminate|].
        destruct (Broadcast_failure _ _ _ _ _ _ _ Hb Hin) as (-> & pre' & ->).
        split; [reflexivity|].
        exists (pre ++ devs ++ EvGameResult
                         {| chord := c; emotion := e; descriptors := d;
                            dialogue := dl |} :: pre').
        now rewrite <- !app_assoc.
      * intros r Hin Hno.
        assert (Hall : forall ev, In ev sent -> raised ev = None).
        { apply sends_all_fine; auto.
          intros a v x Hs. apply (Hno a v x).
          apply in_or_app; right. apply in_or_app; right. now right. }
        rewrite (Broadcast_no_failure _ _ _ _ Hb Hall).
        apply in_app_or in Hin. destruct Hin as [Hin|Hin]; [absurd_stage|].
        apply in_app_or in Hin. destruct Hin as [Hin|[Hin|Hin]];
          [absurd_stage| |absurd_stage].
        congruence.
Qed.

Lemma sink_failure_propagates_witness :
  In (EvSendMessage "/music/chord/label" (OscStr "Dm") (Raise (Error "OSError")))
     (new_events initial_state
        (snd (Scenario.run Scenario.socket_down Scenario.game_unreal
                (Audio "take1.wav"))))
  /\ fst (Scenario.run Scenario.socket_down Scenario.game_unreal (Audio "take1.wav"))
     = Raise (Error "OSError").
Proof.
  set (run := Scenario.run Scenario.socket_down Scenario.game_unreal
                (Audio "take1.wav")).
  assert (Hin : In (EvSendMessage "/music/chord/label" (OscStr "Dm")
                      (Raise (Error "OSError")))
                   (new_events initial_state (snd run))).
  { vm_compute. tauto. }
  split; [exact Hin|].
  exact (proj1 (proj1 (sink_failure_propagates Scenario.KEYS Scenario.socket_down
                         Scenario.game_unreal (Audio "take1.wav") initial_state
                         (fst run) (snd run) (surjective_pairing run))
                  _ _ _ Hin)).
Defined.

(** C1, as it is written, fails: with the Unreal sink enabled and its
    socket failing, the request assembles the result, the first
    [send_message] raises, and the caller gets the exception instead of
    the [GameResult]. *)
Lemma sink_failure_reaches_caller :
  (exists r,
     In (EvGameResult r)
        (trace (snd (Scenario.run Scenario.socket_down Scenario.game_unreal
                       (Audio "take1.wav")))))
  /\ ~ (exists r,
          fst (Scenario.run Scenario.socket_down Scenario.game_unreal
                 (Audio "take1.wav")) = Ok r).
Proof.
  split.
  - eexists. vm_compute. do 8 right. left. reflexivity.
  - intros (r & Hr). vm_compute in Hr. discriminate.
Qed.




(** ** The conversation history *)

(** One request takes the history to the history after the turns the
    backend returned during the request (there is at most one). *)
Lemma process_history FEATURE_KEYS world self req st out st' :
  process FEATURE_KEYS world self req st = (out, st') ->
  history st'
  = history_after (history_limit (config self))
      (generated (new_events st st')) (history st).
Proof.
  intros Hrun.
  destruct (process_staged _ _ _ _ _ _ _ Hrun) as (_ & Hs).
  remember (new_events st st') as all eqn:Eall.
  remember (history st') as hist' eqn:Eh.
  clear Hrun Eall Eh.
  destruct Hs as [pre x0 Fpre _ _|pre c e d evs out h' Fpre _ _ _ Ht].
  - rewrite generated_none; [reflexivity|].
    eapply Forall_impl; [|exact Fpre]. simpl; intros; lia.
  - rewrite generated_app, generated_none.
    + exact (TailRun_history _ _ _ _ _ _ _ _ Ht).
    + eapply Forall_impl; [|exact Fpre]. simpl; intros; lia.
Qed.

Lemma process_trace FEATURE_KEYS world self req st :
  trace (snd (process FEATURE_KEYS world self req st))
  = trace st ++ new_events st (snd (process FEATURE_KEYS world self req st)).
Proof.
  exact (proj1 (process_staged _ _ _ _ _ _ _
                  (surjective_pairing (process FEATURE_KEYS world self req st)))).
Qed.

(** The same over the requests of a session. *)
Lemma session_history FEATURE_KEYS world self reqs :
  forall st,
    trace (session FEATURE_KEYS world self reqs st)
    = trace st ++ new_events st (session FEATURE_KEYS world self reqs st)
    /\ history (session FEATURE_KEYS world self reqs st)
       = history_after (history_limit (config self))
           (generated (new_events st (session FEATURE_KEYS world self reqs st)))
           (history st).
Proof.
  induction reqs as [|req reqs IH]; intros st; simpl.
  - unfold new_events. rewrite skipn_all, app_nil_r. split; reflexivity.
  - set (st1 := snd (process FEATURE_KEYS world self req st)).
    destruct (IH st1) as (Ht & Hh).
    pose proof (process_trace FEATURE_KEYS world self req st) as Ht1.
    fold st1 in Ht1.
    assert (Hnew : new_events st (session FEATURE_KEYS world self reqs st1)
                   = new_events st st1
                     ++ new_events st1 (session FEATURE_KEYS world self reqs st1)).
    { apply new_events_app. rewrite Ht at 1. rewrite Ht1 at 1.
      now rewrite <- app_assoc. }
    split.
    + rewrite Hnew, app_assoc, <- Ht1. exact Ht.
    + rewrite Hnew, generated_app, history_after_app, Hh.
      f_equal.
      exact (process_history _ _ _ _ _ _ _
               (surjective_pairing (process FEATURE_KEYS world self req st))).
Qed.

(** With a history limit of at least one, the history of a game object
    that started empty holds the last [history_limit] turns generated, in
    generation order, and so [min N history_limit] of them. *)
Lemma history_bound_positive_limit FEATURE_KEYS world self reqs :
  1 <= history_limit (config self) ->
  let final := session FEATURE_KEYS world self reqs initial_state in
  history final
  = last_n (Z.to_nat (history_limit (config self))) (generated (trace final))
  /\ List.length (history final)
     = Nat.min (List.length (generated (trace final)))
               (Z.to_nat (history_limit (config self))).
Proof.
  intros Hl final.
  destruct (session_history FEATURE_KEYS world self reqs initial_state)
    as (Ht & Hh).
  fold final in Ht, Hh. simpl in Ht, Hh.
  assert (Hlast : history final
                  = last_n (Z.to_nat (history_limit (config self)))
                      (generated (trace final))).
  { rewrite Hh, Ht.
    exact (history_after_positive _ _ Hl []). }
  split; [exact Hlast|].
  rewrite Hlast. apply length_last_n.
Qed.

(** C3 at [history_limit = 0].  [self.history[-0:]] is the whole list, so
    nothing is ever trimmed: the history of a game object that started
    empty holds every turn generated, [N] of them and not [min N 0]. *)
Theorem history_limit_zero_keeps_every_turn FEATURE_KEYS world self reqs :
  history_limit (config self) = 0 ->
  history (session FEATURE_KEYS world self reqs initial_state)
  = generated (trace (session FEATURE_KEYS world self reqs initial_state)).
Proof.
  intros Hl.
  destruct (session_history FEATURE_KEYS world self reqs initial_state)
    as (Ht & Hh).
  simpl in Ht, Hh. rewrite Hh, Ht, Hl.
  exact (history_after_zero _ []).
Qed.

Lemma history_limit_zero_keeps_every_turn_witness :
  history_limit (config (Scenario.game_limit 0)) = 0
  /\ List.length
       (history (session Scenario.KEYS Scenario.all_fine (Scenario.game_limit 0)
                   [Audio "take1.wav"; Audio "take2.wav"; Midi "take3.mid"]
                   initial_state)) = 3%nat.
Proof.
  split; [reflexivity|].
  rewrite (history_limit_zero_keeps_every_turn Scenario.KEYS Scenario.all_fine
             (Scenario.game_limit 0)
             [Audio "take1.wav"; Audio "take2.wav"; Midi "take3.mid"] eq_refl).
  vm_compute. reflexivity.
Defined.

(** ** Order of the side effects *)

Lemma mutation_stage (ev : event) :
  stage ev = 6%nat \/ (exists t, generated [ev] = [t]) ->
  (5 <= stage ev <= 6)%nat.
Proof.
  intros [H|(t & H)]; [lia|].
  destruct ev; simpl in *; try discriminate. lia.
Qed.

(** C7.  The effects of every request are in the order of the stages:
    chroma acquisition, chord estimation, descriptor acquisition, emotion
    inference, dialogue generation, history mutation, result assembly,
    broadcast (an effect of a later stage never comes before an effect of
    an earlier one).  The history is appended to and trimmed only right
    after a successful dialogue generation, with the turn generated, and
    right before the result is assembled, and a successful generation is
    always followed by both.  The result is assembled once; everything
    before it belongs to the earlier stages and everything after it is a
    message of the broadcast, and messages are sent only once the result
    is assembled.  The result returned is the result assembled. *)
Theorem side_effect_ordering FEATURE_KEYS world self req st out st' :
  process FEATURE_KEYS world self req st = (out, st') ->
  StronglySorted before (new_events st st')
  /\ (forall ev,
        In ev (new_events st st') ->
        stage ev = 6%nat \/ (exists t, generated [ev] = [t]) ->
        exists pre el cl d h t r sent,
          new_events st st'
          = pre ++ [EvGenerate el cl d h (Ok t);
                    EvHistoryAppend t;
                    EvHistoryTrim (history_limit (config self));
                    EvGameResult r] ++ sent
          /\ dialogue r = Some t
          /\ Forall (fun ev => (stage ev <= 4)%nat) pre
          /\ Forall (fun ev => stage ev = 8%nat) sent)
  /\ (forall r,
        In (EvGameResult r) (new_events st st') ->
        exists pre sent,
          new_events st st' = pre ++ EvGameResult r :: sent
          /\ Forall (fun ev => (stage ev <= 6)%nat) pre
          /\ Forall (fun ev => stage ev = 8%nat) sent)
  /\ (forall a v o,
        In (EvSendMessage a v o) (new_events st st') ->
        exists r, In (EvGameResult r) (new_events st st'))
  /\ (forall r, out = Ok r -> In (EvGameResult r) (new_events st st')).
Proof.
  intros Hrun.
  destruct (process_staged _ _ _ _ _ _ _ Hrun) as (_ & Hs).
  remember (new_events st st') as all eqn:Eall.
  remember (history st') as hist' eqn:Eh.
  clear Hrun Eall Eh.
  destruct Hs as [pre x0 Fpre Spre _|pre c e d evs out h' Fpre Spre _ _ Ht].
  - split; [exact Spre|].
    split; [|split; [|split]].
    + intros ev Hin Hev. apply mutation_stage in Hev. absurd_stage.
    + intros r Hin. absurd_stage.
    + intros a v o Hin. absurd_stage.
    + intros r Hr. discriminate.
  - pose proof (TailRun_stage _ _ _ _ _ _ _ _ Ht) as Ftail.
    split.
    { apply ranked_concat; auto.
      - exact (TailRun_sorted _ _ _ _ _ _ _ _ Ht).
      - intros a b Ha Hb. rewrite Forall_forall in Fpre, Ftail.
        specialize (Fpre _ Ha). specialize (Ftail _ Hb).
        unfold before, by_rank. simpl in *. lia. }
    clear Ftail.
    destruct (TailRun_inv _ _ _ _ _ _ _ _ Ht)
      as (devs & dout & Hd & [(x0 & -> & -> & ->)|(dl & sent & o & -> & Hb & -> & ->)]);
      pose proof (DialogueRun_stage _ _ _ _ _ _ _ _ Hd) as Fd.
    + split; [|split; [|split]].
      * intros ev Hin Hev.
        apply in_app_or in Hin. destruct Hin as [Hin|Hin];
          [apply mutation_stage in Hev; absurd_stage|].
        destruct (DialogueRun_mutation _ _ _ _ _ _ _ _ Hd ev Hin Hev)
          as (el & cl & t & _ & Hout). discriminate.
      * intros r Hin.
        apply in_app_or in Hin. destruct Hin as [Hin|Hin]; absurd_stage.
      * intros a v o Hin.
        apply in_app_or in Hin. destruct Hin as [Hin|Hin]; absurd_stage.
      * intros r Hr. discriminate.
    + pose proof (Broadcast_stage _ _ _ _ Hb) as Fsent.
      set (r0 := {| chord := c; emotion := e; descriptors := d; dialogue := dl |}) in *.
      assert (Hres : In (EvGameResult r0) (pre ++ devs ++ EvGameResult r0 :: sent)).
      { apply in_or_app; right. apply in_or_app; right. now left. }
      split; [|split; [|split]].
      * intros ev Hin Hev.
        assert (Hdev : In ev devs).
        { apply mutation_stage in Hev.
          apply in_app_or in Hin. destruct Hin as [Hin|Hin]; [absurd_stage|].
          apply in_app_or in Hin. destruct Hin as [Hin|[<-|Hin]];
            [assumption|simpl in Hev; lia|absurd_stage]. }
        destruct (DialogueRun_mutation _ _ _ _ _ _ _ _ Hd ev Hdev Hev)
          as (el & cl & t & -> & Hout).
        inversion Hout; subst dl.
        exists pre, el, cl, d, (history st), t, r0, sent.
        repeat split; auto.
      * intros r Hin.
        assert (Hr : r = r0).
        { apply in_app_or in Hin. destruct Hin as [Hin|Hin]; [absurd_stage|].
          apply in_app_or in Hin. destruct Hin as [Hin|[Heq|Hin]];
            [absurd_stage|congruence|absurd_stage]. }
        subst r. exists (pre ++ devs), sent.
        split; [now rewrite <- app_assoc|]. split; [|exact Fsent].
        apply Forall_app. split.
        -- eapply Forall_impl; [|exact Fpre]. simpl; intros; lia.
        -- eapply Forall_impl; [|exact Fd]. simpl; intros; lia.
      * intros a v o' Hin. now exists r0.
      * intros r Hr. destruct o; inversion Hr; subst. exact Hres.
Qed.

Lemma side_effect_ordering_witness :
  StronglySorted before
    (new_events initial_state
       (snd (Scenario.run Scenario.all_fine Scenario.game_unreal (Audio "take1.wav"))))
  /\ map stage
       (new_events initial_state
          (snd (Scenario.run Scenario.all_fine Scenario.game_unreal
                  (Audio "take1.wav"))))
     = [1; 1; 2; 3; 4; 5; 6; 6; 7; 8; 8; 8; 8; 8; 8; 8; 8; 8; 8; 8]%nat.
Proof.
  set (run := Scenario.run Scenario.all_fine Scenario.game_unreal (Audio "take1.wav")).
  split.
  - exact (proj1 (side_effect_ordering Scenario.KEYS Scenario.all_fine
                    Scenario.game_unreal (Audio "take1.wav") initial_state
                    (fst run) (snd run) (surjective_pairing run))).
  - vm_compute. reflexivity.
Defined.

(** ** The broadcast message scheme *)


Lemma Sent_addresses (P : string -> Prop) msgs evs out :
  Sent msgs evs out ->
  Forall (fun m => P (fst m)) msgs ->
  Forall (fun ev => P (address_of ev)) evs.
Proof.
  induction 1 as [|a v msgs evs out H IH|a v msgs e]; intros F.
  - constructor.
  - inversion F; subst. constructor; auto.
  - inversion F; subst. repeat constructor; auto.
Qed.

Lemma Sent_in_order (rank : string -> nat) msgs evs out :
  Sent msgs evs out ->
  StronglySorted (by_rank (fun m => rank (fst m))) msgs ->
  StronglySorted (by_rank (fun ev => rank (address_of ev))) evs.
Proof.
  induction 1 as [|a v msgs evs out H IH|a v msgs e]; intros S.
  - constructor.
  - inversion S as [|m ms Hs Hf]; subst. constructor; auto.
    exact (Sent_addresses (fun b => (rank a <= rank b)%nat) _ _ _ H Hf).
  - repeat constructor.
Qed.

Lemma chord_messages_rank c :
  Forall (fun m => address_rank (fst m) = 1%nat) (chord_messages c).
Proof. destruct c; repeat constructor. Qed.

Lemma emotion_messages_rank e :
  Forall (fun m => address_rank (fst m) = 2%nat) (emotion_messages e).
Proof.
  destruct e as [e|]; simpl; repeat constructor.
  apply Forall_map. apply Forall_forall. intros [l p] _. reflexivity.
Qed.

Lemma dialogue_messages_rank d :
  Forall (fun m => address_rank (fst m) = 3%nat) (dialogue_messages d).
Proof. destruct d; repeat constructor. Qed.

Lemma descriptor_messages_rank d :
  Forall (fun m => address_rank (fst m) = 4%nat) (descriptor_messages d).
Proof.
  unfold descriptor_messages.
  apply Forall_map. apply Forall_forall. intros [[|c k] v] _; reflexivity.
Qed.

Lemma Forall_rank_le {A} (rank : A -> nat) (n m : nat) (l : list A) :
  (n <= m)%nat -> Forall (fun x => rank x = n) l ->
  Forall (fun x => (rank x <= m)%nat) l.
Proof. intros Hnm. apply Forall_impl. intros; lia. Qed.

Lemma Forall_rank_ge {A} (rank : A -> nat) (n m : nat) (l : list A) :
  (m <= n)%nat -> Forall (fun x => rank x = n) l ->
  Forall (fun x => (m <= rank x)%nat) l.
Proof. intros Hnm. apply Forall_impl. intros; lia. Qed.

Lemma osc_messages_sorted (r : GameResult) :
  StronglySorted (by_rank (fun m => address_rank (fst m))) (osc_messages r).
Proof.
  pose proof (chord_messages_rank (chord r)) as F1.
  pose proof (emotion_messages_rank (emotion r)) as F2.
  pose proof (dialogue_messages_rank (dialogue r)) as F3.
  pose proof (descriptor_messages_rank (descriptors r)) as F4.
  unfold osc_messages.
  apply (ranked_app _ 1%nat); [exact (ranked_same _ _ _ F1)| |
    exact (Forall_rank_le _ _ _ _ (le_n _) F1)|].
  - apply (ranked_app _ 2%nat); [exact (ranked_same _ _ _ F2)| |
      exact (Forall_rank_le _ _ _ _ (le_n _) F2)|].
    + apply (ranked_app _ 3%nat);
        [exact (ranked_same _ _ _ F3)|exact (ranked_same _ _ _ F4)
        |exact (Forall_rank_le _ _ _ _ (le_n _) F3)|].
      apply (Forall_rank_ge _ 4%nat); [lia|exact F4].
    + apply Forall_app. split.
      * apply (Forall_rank_ge _ 3%nat); [lia|exact F3].
      * apply (Forall_rank_ge _ 4%nat); [lia|exact F4].
  - repeat (apply Forall_app; split).
    + apply (Forall_rank_ge _ 2%nat); [lia|exact F2].
    + apply (Forall_rank_ge _ 3%nat); [lia|exact F3].
    + apply (Forall_rank_ge _ 4%nat); [lia|exact F4].
Qed.

(** The messages of a field that is unset. *)
Lemma osc_messages_skip (r : GameResult) (n : nat) :
  match n with
  | 1%nat => chord r = None
  | 2%nat => emotion r = None
  | 3%nat => dialogue r = None
  | _ => False
  end ->
  Forall (fun m => address_rank (fst m) <> n) (osc_messages r).
Proof.
  pose proof (chord_messages_rank (chord r)) as F1.
  pose proof (emotion_messages_rank (emotion r)) as F2.
  pose proof (dialogue_messages_rank (dialogue r)) as F3.
  pose proof (descriptor_messages_rank (descriptors r)) as F4.
  intros Hn. unfold osc_messages.
  destruct n as [|[|[|[|n]]]]; try contradiction; rewrite Hn in *; simpl;
    repeat (apply Forall_app; split);
    try apply Forall_nil;
    match goal with
    | F : Forall _ ?l |- Forall _ ?l =>
        eapply Forall_impl; [|exact F]; simpl; intros; lia
    end.
Qed.

(** C8, as the code has it.  [send_game_result] sends the messages of the
    result in the order chord, emotion, dialogue, descriptors and stops
    at the first send that raises; it does nothing else.  The addresses
    are [/music/chord/label], [/music/emotion/label],
    [/music/emotion/confidence], [/music/emotion/probability/<label>],
    [/music/llm/content], [/music/llm/role] and [/music/descriptor/<key>]
    (the dialogue goes out under [llm], not under [dialogue]); each
    message carries one string or one float.  An unset chord, emotion or
    dialogue produces no message in its name space. *)
Theorem broadcast_message_scheme world r st out st' :
  send_game_result world r st = (out, st') ->
  history st' = history st
  /\ Sent (osc_messages r) (new_events st st') out
  /\ (out = Ok tt ->
      new_events st st'
      = map (fun '(a, v) => EvSendMessage a v (Ok tt))
          (chord_messages (chord r) ++ emotion_messages (emotion r)
           ++ dialogue_messages (dialogue r)
           ++ descriptor_messages (descriptors r)))
  /\ StronglySorted (by_rank message_rank) (new_events st st')
  /\ Forall (fun ev => (1 <= message_rank ev <= 4)%nat) (new_events st st')
  /\ (chord r = None ->
      Forall (fun ev => message_rank ev <> 1%nat) (new_events st st'))
  /\ (emotion r = None ->
      Forall (fun ev => message_rank ev <> 2%nat) (new_events st st'))
  /\ (dialogue r = None ->
      Forall (fun ev => message_rank ev <> 3%nat) (new_events st st')).
Proof.
  intros Hrun.
  destruct (send_game_result_sends world r st out st' Hrun) as (Hh & evs & Ht & Hs).
  rewrite (new_events_app _ _ _ Ht).
  split; [exact Hh|]. split; [exact Hs|].
  split; [intros Hok; exact (Sent_ok _ _ _ Hs Hok)|].
  split; [exact (Sent_in_order address_rank _ _ _ Hs (osc_messages_sorted r))|].
  split.
  { apply (Sent_addresses (fun a => (1 <= address_rank a <= 4)%nat) _ _ _ Hs).
    pose proof (chord_messages_rank (chord r)) as F1.
    pose proof (emotion_messages_rank (emotion r)) as F2.
    pose proof (dialogue_messages_rank (dialogue r)) as F3.
    pose proof (descriptor_messages_rank (descriptors r)) as F4.
    unfold osc_messages. repeat (apply Forall_app; split);
      match goal with
      | F : Forall _ ?l |- Forall _ ?l =>
          eapply Forall_impl; [|exact F]; simpl; intros; lia
      end. }
  split; [|split]; intros Hnone.
  - exact (Sent_addresses (fun a => address_rank a <> 1%nat) _ _ _ Hs
             (osc_messages_skip r 1 Hnone)).
  - exact (Sent_addresses (fun a => address_rank a <> 2%nat) _ _ _ Hs
             (osc_messages_skip r 2 Hnone)).
  - exact (Sent_addresses (fun a => address_rank a <> 3%nat) _ _ _ Hs
             (osc_messages_skip r 3 Hnone)).
Qed.

Lemma broadcast_message_scheme_witness :
  map address_of
    (new_events initial_state
       (snd (send_game_result Scenario.all_fine
               {| chord := Some Scenario.Dm; emotion := None;
                  descriptors := Scenario.fast_and_loud;
                  dialogue := Some Scenario.reply |}
               initial_state)))
  = ["/music/chord/label"; "/music/llm/content"; "/music/llm/role";
     "/music/descriptor/tempo"; "/music/descriptor/energy"]
  /\ Forall (fun ev => message_rank ev <> 2%nat)
       (new_events initial_state
          (snd (send_game_result Scenario.all_fine
                  {| chord := Some Scenario.Dm; emotion := None;
                     descriptors := Scenario.fast_and_loud;
                     dialogue := Some Scenario.reply |}
                  initial_state))).
Proof.
  set (r := {| chord := Some Scenario.Dm; emotion := None;
               descriptors := Scenario.fast_and_loud;
               dialogue := Some Scenario.reply |}).
  set (run := send_game_result Scenario.all_fine r initial_state).
  split; [vm_compute; reflexivity|].
  pose proof (broadcast_message_scheme Scenario.all_fine r initial_state
                (fst run) (snd run) (surjective_pairing run)) as H.
  exact (proj1 (proj2 (proj2 (proj2 (proj2 (proj2 (proj2 H)))))) eq_refl).
Defined.

(** C8, as it is written, fails on the dialogue addresses: the content
    and the role of the dialogue are sent to [/music/llm/content] and
    [/music/llm/role], and no message goes to an address ending in
    [/dialogue/content] or [/dialogue/role]. *)
Lemma dialogue_sent_under_llm :
  In (EvSendMessage "/music/llm/content"
        (OscStr "Restless, like a storm in D minor.") (Ok tt))
     (trace (snd (Scenario.run Scenario.all_fine Scenario.game_unreal
                    (Audio "take1.wav"))))
  /\ In (EvSendMessage "/music/llm/role" (OscStr "assistant") (Ok tt))
        (trace (snd (Scenario.run Scenario.all_fine Scenario.game_unreal
                       (Audio "take1.wav"))))
  /\ existsb (fun ev => match sent_address ev with
                        | Some a => spec_dialogue_address a
                        | None => false
                        end)
       (trace (snd (Scenario.run Scenario.all_fine Scenario.game_unreal
                      (Audio "take1.wav")))) = false.
Proof.
  split; [vm_compute; tauto|]. split; [vm_compute; tauto|].
  vm_compute. reflexivity.
Qed.

(** ** The MIDI path *)

(** C6.  A MIDI request whose chroma derivation returns [None] assembles
    the result with chord, emotion and dialogue unset and the zero-filled
    descriptors, without calling the emotion classifier or the dialogue
    backend and without touching the history; that is the result it
    returns, whenever it returns one, and it returns one unless a message
    of the broadcast fails.  The zero-filled descriptors bind every
    declared feature key, and nothing else, to [0.0]. *)
Theorem midi_without_chroma FEATURE_KEYS world self file_path st out st' :
  ext_derive_chroma_from_midi world (trace st) file_path = Ok None ->
  process_midi_file FEATURE_KEYS world self file_path st = (out, st') ->
  let r0 := {| chord := None; emotion := None;
               descriptors := zero_descriptors FEATURE_KEYS;
               dialogue := None |} in
  (forall r, out = Ok r -> r = r0)
  /\ In (EvGameResult r0) (new_events st st')
  /\ (forall feats o, ~ In (EvPredict feats o) (new_events st st'))
  /\ (forall el cl d h o, ~ In (EvGenerate el cl d h o) (new_events st st'))
  /\ history st' = history st
  /\ ((forall a v x, ~ In (EvSendMessage a v (Raise x)) (new_events st st')) ->
      out = Ok r0)
  /\ (forall k,
        PyDict.get k (zero_descriptors FEATURE_KEYS)
        = if in_dec string_dec k FEATURE_KEYS
          then Some (DFloat PyFloat.zero) else None).
Proof.
  intros Hd Hrun r0.
  unfold process_midi_file, derive_chroma_from_midi in Hrun.
  unfold bind at 1, call at 1 in Hrun. rewrite Hd in Hrun.
  unfold bind at 1, ret at 1 in Hrun. simpl truthy in Hrun. cbv iota in Hrun.
  unfold bind at 1, ret at 1 in Hrun.
  destruct (tail_runs _ _ _ _ _ _ _ _ Hrun) as (evs & Ht & Hr).
  simpl in Ht, Hr. rewrite <- app_assoc in Ht.
  rewrite (new_events_app _ _ _ Ht). simpl.
  destruct (TailRun_inv _ _ _ _ _ _ _ _ Hr)
    as (devs & dout & Hdl & [(x & -> & -> & ->)|(dl & sent & o & -> & Hb & -> & ->)]);
    destruct (DialogueRun_skipped _ _ _ _ _ _ _ _ Hdl (or_introl eq_refl))
      as (-> & Hdout & ->); [discriminate|].
  inversion Hdout; subst dl. fold r0 in Hb |- *.
  pose proof (Broadcast_stage _ _ _ _ Hb) as Fsent.
  split; [intros r Hout; destruct o; congruence|].
  split; [simpl; tauto|].
  split; [intros feats o' [Hin|[Hin|Hin]]; try discriminate; absurd_stage|].
  split; [intros el cl d h o' [Hin|[Hin|Hin]]; try discriminate; absurd_stage|].
  split; [reflexivity|].
  split; [|exact (get_zero_descriptors FEATURE_KEYS)].
  intros Hno.
  rewrite (Broadcast_no_failure _ _ _ _ Hb); [reflexivity|].
  apply sends_all_fine; auto.
  intros a v x Hs. apply (Hno a v x). simpl. tauto.
Qed.

Lemma midi_without_chroma_witness :
  ext_derive_chroma_from_midi Scenario.all_fine (trace initial_state) "silence.mid"
  = Ok None
  /\ fst (process_midi_file Scenario.KEYS Scenario.all_fine Scenario.game_unreal
            "silence.mid" initial_state)
     = Ok {| chord := None; emotion := None;
             descriptors := [("tempo", DFloat PyFloat.zero);
                             ("energy", DFloat PyFloat.zero)];
             dialogue := None |}.
Proof.
  set (run := process_midi_file Scenario.KEYS Scenario.all_fine Scenario.game_unreal
                "silence.mid" initial_state).
  assert (Hd : ext_derive_chroma_from_midi Scenario.all_fine (trace initial_state)
                 "silence.mid" = Ok None) by reflexivity.
  split; [exact Hd|].
  destruct (midi_without_chroma Scenario.KEYS Scenario.all_fine Scenario.game_unreal
              "silence.mid" initial_state (fst run) (snd run) Hd
              (surjective_pairing run)) as (_ & _ & _ & _ & _ & Hok & _).
  apply Hok. intros a v x Hin. vm_compute in Hin.
  repeat (destruct Hin as [Hin|Hin]; [discriminate|]). exact Hin.
Defined.

Lemma EmotionRun_zero FEATURE_KEYS self evs out :
  EmotionRun FEATURE_KEYS self (zero_descriptors FEATURE_KEYS) evs out ->
  exists o, evs = [EvPredict (zero_features FEATURE_KEYS) o].
Proof.
  inversion 1 as [e Hc|feats e Hc|feats p Hc|feats p Hc]; subst;
    rewrite numeric_features_zero in Hc; inversion Hc; subst; eauto.
Qed.

(** C9.  Every MIDI request assembles, and returns if it returns, a
    result whose descriptors are the zero-filled mapping over the
    declared feature keys, also when a chord was detected: no descriptor
    is ever extracted on the MIDI path.  Whenever the classifier is
    called there, it is with the all-zero feature vector, and it is
    called whenever a chord was detected. *)
Theorem midi_descriptors_always_zero FEATURE_KEYS world self file_path st out st' :
  process_midi_file FEATURE_KEYS world self file_path st = (out, st') ->
  (forall r, out = Ok r -> descriptors r = zero_descriptors FEATURE_KEYS)
  /\ (forall r, In (EvGameResult r) (new_events st st') ->
        descriptors r = zero_descriptors FEATURE_KEYS)
  /\ (forall s sr o, ~ In (EvExtractDescriptors s sr o) (new_events st st'))
  /\ (forall feats o, In (EvPredict feats o) (new_events st st') ->
        feats = zero_features FEATURE_KEYS)
  /\ (forall ch c, In (EvEstimateChord ch (Ok (Some c))) (new_events st st') ->
        exists o, In (EvPredict (zero_features FEATURE_KEYS) o) (new_events st st')).
Proof.
  intros Hrun.
  destruct (process_midi_file_runs _ _ _ _ _ _ _ Hrun) as (evs & Ht & Hr).
  rewrite (new_events_app _ _ _ Ht).
  assert (Htail : forall c e evs2 out h',
            TailRun self c e (zero_descriptors FEATURE_KEYS) (history st) evs2 out h' ->
            Forall (fun ev => (5 <= stage ev)%nat) evs2
            /\ (forall r, out = Ok r -> descriptors r = zero_descriptors FEATURE_KEYS)
            /\ (forall r, In (EvGameResult r) evs2 ->
                  descriptors r = zero_descriptors FEATURE_KEYS)).
  { intros c e evs2 out2 h2 Htl.
    pose proof (TailRun_stage _ _ _ _ _ _ _ _ Htl) as F.
    split; [exact F|]. split.
    - intros r ->. now destruct (TailRun_result _ _ _ _ _ _ _ _ Htl) as (_ & _ & ->).
    - intros r Hin.
      destruct (TailRun_inv _ _ _ _ _ _ _ _ Htl)
        as (devs & dout & Hdl & [(x & -> & -> & ->)|(dl & sent & o & -> & Hb & -> & ->)]);
        pose proof (DialogueRun_stage _ _ _ _ _ _ _ _ Hdl) as Fd.
      + absurd_stage.
      + pose proof (Broadcast_stage _ _ _ _ Hb) as Fsent.
        apply in_app_or in Hin. destruct Hin as [Hin|[Hin|Hin]];
          [absurd_stage| |absurd_stage].
        inversion Hin; subst. reflexivity. }
  destruct Hr as [x|evs out h' Htl|ch x|ch evs out h' Htl|ch c evs x He
                 |ch c evs1 e evs2 out h' He Htl].
  - repeat split; try discriminate.
    + intros r [Hin|[]]; discriminate.
    + intros s sr o [Hin|[]]; discriminate.
    + intros feats o [Hin|[]]; discriminate.
    + intros ch c [Hin|[]]; discriminate.
  - destruct (Htail _ _ _ _ _ Htl) as (F & Hout & Hres).
    split; [exact Hout|]. split; [|split; [|split]].
    + intros r [Hin|Hin]; [discriminate|auto].
    + intros s sr o [Hin|Hin]; [discriminate|absurd_stage].
    + intros feats o [Hin|Hin]; [discriminate|absurd_stage].
    + intros ch c [Hin|Hin]; [discriminate|absurd_stage].
  - repeat split; try discriminate.
    + intros r [Hin|[Hin|[]]]; discriminate.
    + intros s sr o [Hin|[Hin|[]]]; discriminate.
    + intros feats o [Hin|[Hin|[]]]; discriminate.
    + intros ch0 c [Hin|[Hin|[]]]; discriminate.
  - destruct (Htail _ _ _ _ _ Htl) as (F & Hout & Hres).
    split; [exact Hout|]. split; [|split; [|split]].
    + intros r [Hin|[Hin|Hin]]; try discriminate; auto.
    + intros s sr o [Hin|[Hin|Hin]]; try discriminate; absurd_stage.
    + intros feats o [Hin|[Hin|Hin]]; try discriminate; absurd_stage.
    + intros ch0 c [Hin|[Hin|Hin]]; try discriminate; absurd_stage.
  - destruct (EmotionRun_zero _ _ _ _ He) as (o & ->).
    split; [discriminate|]. split; [|split; [|split]].
    + intros r [Hin|[Hin|[Hin|[]]]]; discriminate.
    + intros s sr o' [Hin|[Hin|[Hin|[]]]]; discriminate.
    + intros feats o' [Hin|[Hin|[Hin|[]]]]; try discriminate.
      now inversion Hin.
    + intros ch0 c0 _. exists o. simpl. tauto.
  - destruct (EmotionRun_zero _ _ _ _ He) as (o & ->).
    destruct (Htail _ _ _ _ _ Htl) as (F & Hout & Hres).
    split; [exact Hout|]. split; [|split; [|split]].
    + intros r [Hin|[Hin|[Hin|Hin]]]; try discriminate; auto.
    + intros s sr o' [Hin|[Hin|[Hin|Hin]]]; try discriminate; absurd_stage.
    + intros feats o' [Hin|[Hin|[Hin|Hin]]]; try discriminate.
      * now inversion Hin.
      * absurd_stage.
    + intros ch0 c0 _. exists o. simpl. tauto.
Qed.

Lemma midi_descriptors_always_zero_witness :
  In (EvEstimateChord [] (Ok (Some Scenario.Dm)))
     (new_events initial_state
        (snd (process_midi_file Scenario.KEYS Scenario.all_fine Scenario.game
                "take3.mid" initial_state)))
  /\ (exists o,
        In (EvPredict [("tempo", PyFloat.zero); ("energy", PyFloat.zero)] o)
           (new_events initial_state
              (snd (process_midi_file Scenario.KEYS Scenario.all_fine Scenario.game
                      "take3.mid" initial_state))))
  /\ (exists r,
        fst (process_midi_file Scenario.KEYS Scenario.all_fine Scenario.game
               "take3.mid" initial_state) = Ok r
        /\ chord r = Some Scenario.Dm
        /\ descriptors r = [("tempo", DFloat PyFloat.zero);
                            ("energy", DFloat PyFloat.zero)]).
Proof.
  set (run := process_midi_file Scenario.KEYS Scenario.all_fine Scenario.game
                "take3.mid" initial_state).
  destruct (midi_descriptors_always_zero Scenario.KEYS Scenario.all_fine
              Scenario.game "take3.mid" initial_state (fst run) (snd run)
              (surjective_pairing run)) as (Hout & _ & _ & _ & Hcall).
  assert (Hin : In (EvEstimateChord [] (Ok (Some Scenario.Dm)))
                   (new_events initial_state (snd run))).
  { vm_compute. tauto. }
  split; [exact Hin|]. split; [exact (Hcall _ _ Hin)|].
  eexists. assert (Hr : fst run = Ok _) by (vm_compute; reflexivity).
  split; [exact Hr|]. split; [reflexivity|]. exact (Hout _ Hr).
Defined.

(** ** Coercion of the descriptors *)

(** [float] of a descriptor value raises nothing but [ValueError]. *)
Lemma py_float_raises (v : desc_value) (e : exn) :
  py_float v = Raise e -> e = ValueError.
Proof.
  destruct v as [f|s]; simpl; [discriminate|].
  destruct (PyFloat.of_string s); congruence.
Qed.

Lemma numeric_features_numeric FEATURE_KEYS (d : Descriptors) :
  (forall k v, In k FEATURE_KEYS -> PyDict.get k d = Some v ->
               exists f, v = DFloat f) ->
  numeric_features FEATURE_KEYS d
  = Ok (PyDict.comprehension
          (fun k => match PyDict.get k d with
                    | Some (DFloat f) => f
                    | _ => PyFloat.zero
                    end)
          FEATURE_KEYS).
Proof.
  intros Hnum. unfold numeric_features, PyDict.comprehension.
  apply comprehension_from_total.
  intros k Hk. unfold PyDict.get_default.
  destruct (PyDict.get k d) as [v|] eqn:E; [|reflexivity].
  destruct (Hnum k v Hk E) as (f & ->). reflexivity.
Qed.

Lemma numeric_features_text FEATURE_KEYS (d : Descriptors) (k s : string) :
  In k FEATURE_KEYS ->
  PyDict.get k d = Some (DStr s) ->
  PyFloat.of_string s = None ->
  numeric_features FEATURE_KEYS d = Raise ValueError.
Proof.
  intros Hk Hget Hs. unfold numeric_features.
  destruct (comprehension_from_raises
              (fun key => py_float (PyDict.get_default key (DFloat PyFloat.zero) d))
              FEATURE_KEYS [] k Hk) as (e & He & k' & _ & Hk').
  - unfold PyDict.get_default. rewrite Hget. simpl. now rewrite Hs.
  - rewrite He. f_equal. exact (py_float_raises _ _ Hk').
Qed.

(** C10.  For a declared feature key [k]: the coercion of the descriptors
    in [_infer_emotion] succeeds whenever every declared key the mapping
    binds is bound to a float (missing keys count as [0.0]); and whenever
    the mapping binds [k] to a string that is no float literal, "major"
    for one, the coercion raises [ValueError], and an audio request that
    extracted such descriptors ends with that [ValueError]: the
    classifier is not called, no result is assembled, the history is as
    it was. *)
Theorem feature_coercion_totality FEATURE_KEYS (k : string) :
  In k FEATURE_KEYS ->
  (forall d,
     (forall k' v, In k' FEATURE_KEYS -> PyDict.get k' d = Some v ->
                   exists f, v = DFloat f) ->
     numeric_features FEATURE_KEYS d
     = Ok (PyDict.comprehension
             (fun k' => match PyDict.get k' d with
                        | Some (DFloat f) => f
                        | _ => PyFloat.zero
                        end)
             FEATURE_KEYS))
  /\ PyFloat.of_string "major" = None
  /\ (forall d s,
        PyDict.get k d = Some (DStr s) ->
        PyFloat.of_string s = None ->
        numeric_features FEATURE_KEYS d = Raise ValueError
        /\ forall world self file_path st out st' samples sr,
             process_audio_file FEATURE_KEYS world self file_path st = (out, st') ->
             In (EvExtractDescriptors samples sr (Ok d)) (new_events st st') ->
             out = Raise ValueError
             /\ history st' = history st
             /\ (forall feats o, ~ In (EvPredict feats o) (new_events st st'))
             /\ (forall r, ~ In (EvGameResult r) (new_events st st'))).
Proof.
  intros Hk.
  split; [exact (numeric_features_numeric FEATURE_KEYS)|].
  split; [reflexivity|].
  intros d s Hget Hs.
  pose proof (numeric_features_text FEATURE_KEYS d k s Hk Hget Hs) as Hc.
  split; [exact Hc|].
  intros world self file_path st out st' samples sr Hrun Hin.
  destruct (process_audio_file_runs _ _ _ _ _ _ _ Hrun) as (evs & Ht & Hr).
  rewrite (new_events_app _ _ _ Ht) in *.
  remember (history st') as hist' eqn:Eh. clear Hrun Ht Eh.
  destruct Hr as [x|s0 sr0 x|s0 sr0 ch x|s0 sr0 ch c x|s0 sr0 ch c d0 evs x He
                 |s0 sr0 ch c d0 evs1 e evs2 out h' He Htl];
    simpl in Hin.
  1-4: repeat (destruct Hin as [Hin|Hin]; [discriminate|]); contradiction.
  - pose proof (EmotionRun_stage _ _ _ _ _ He) as F1.
    assert (d0 = d).
    { repeat (destruct Hin as [Hin|Hin]; try discriminate).
      - now inversion Hin.
      - absurd_stage. }
    subst d0.
    inversion He as [e0 Hc0|feats e0 Hc0| |]; subst;
      rewrite Hc in Hc0; inversion Hc0; subst.
    repeat split; auto.
    + intros feats o Hp. simpl in Hp.
      repeat (destruct Hp as [Hp|Hp]; try discriminate); contradiction.
    + intros r Hp. simpl in Hp.
      repeat (destruct Hp as [Hp|Hp]; try discriminate); contradiction.
  - pose proof (EmotionRun_stage _ _ _ _ _ He) as F1.
    pose proof (TailRun_stage _ _ _ _ _ _ _ _ Htl) as F2.
    assert (d0 = d).
    { repeat (destruct Hin as [Hin|Hin]; try discriminate).
      - now inversion Hin.
      - apply in_app_or in Hin. destruct Hin as [Hin|Hin]; absurd_stage. }
    subst d0.
    inversion He as [| |feats p Hc0|feats p Hc0]; subst;
      rewrite Hc in Hc0; discriminate.
Qed.

Lemma feature_coercion_totality_witness :
  In "tempo" Scenario.KEYS
  /\ PyDict.get "tempo" Scenario.with_text = Some (DStr "fast")
  /\ PyFloat.of_string "fast" = None
  /\ fst (process_audio_file Scenario.KEYS Scenario.text_descriptor Scenario.game
            "take1.wav" initial_state) = Raise ValueError.
Proof.
  set (run := process_audio_file Scenario.KEYS Scenario.text_descriptor Scenario.game
                "take1.wav" initial_state).
  assert (Hk : In "tempo" Scenario.KEYS) by (simpl; tauto).
  assert (Hget : PyDict.get "tempo" Scenario.with_text = Some (DStr "fast"))
    by reflexivity.
  assert (Hs : PyFloat.of_string "fast" = None) by reflexivity.
  split; [exact Hk|]. split; [exact Hget|]. split; [exact Hs|].
  destruct (feature_coercion_totality Scenario.KEYS "tempo" Hk) as (_ & _ & Habort).
  destruct (Habort Scenario.with_text "fast" Hget Hs) as (_ & Hreq).
  refine (proj1 (Hreq Scenario.text_descriptor Scenario.game "take1.wav"
                   initial_state (fst run) (snd run) [] 22050
                   (surjective_pairing run) _)).
  vm_compute. tauto.
Defined.

(* ================================================================== *)
(** * Further properties of the orchestrator *)

(** ** Failures are fatal *)

Lemma Sent_fatal msgs evs out ev x :
  Sent msgs evs out ->
  In ev evs -> raised ev = Some x ->
  out = Raise x
  /\ exists pre, evs = pre ++ [ev] /\ Forall (fun e => raised e = None) pre.
Proof.
  induction 1 as [|a v msgs evs out H IH|a v msgs e]; simpl; intros Hin Hr.
  - contradiction.
  - destruct Hin as [<-|Hin]; [discriminate|].
    destruct (IH Hin Hr) as (-> & pre & -> & F).
    split; [reflexivity|].
    exists (EvSendMessage a v (Ok tt) :: pre). split; [reflexivity|].
    constructor; auto.
  - destruct Hin as [<-|[]]. simpl in Hr. inversion Hr; subst.
    split; [reflexivity|]. exists []. split; [reflexivity|constructor].
Qed.

Lemma Broadcast_fatal self r sent o ev x :
  Broadcast self r sent o ->
  In ev sent -> raised ev = Some x ->
  o = Raise x
  /\ exists pre, sent = pre ++ [ev] /\ Forall (fun e => raised e = None) pre.
Proof.
  unfold Broadcast. destruct (unreal_client self).
  - apply Sent_fatal.
  - intros [-> _] [].
Qed.

Lemma EmotionRun_fatal FEATURE_KEYS self d evs out ev x :
  EmotionRun FEATURE_KEYS self d evs out ->
  In ev evs -> raised ev = Some x ->
  out = Raise x /\ evs = [ev].
Proof.
  destruct 1; simpl; intros Hin Hr; try contradiction;
    destruct Hin as [<-|[]]; simpl in Hr; try discriminate.
  inversion Hr; subst. auto.
Qed.

Lemma DialogueRun_fatal self c e d h evs out h' ev x :
  DialogueRun self c e d h evs out h' ->
  In ev evs -> raised ev = Some x ->
  out = Raise x /\ evs = [ev] /\ h' = h.
Proof.
  destruct 1 as [Hs|c0 e0 x0 -> ->|c0 e0 turn -> ->]; simpl; intros Hin Hr.
  - contradiction.
  - destruct Hin as [<-|[]]. simpl in Hr. inversion Hr; subst. auto.
  - destruct Hin as [<-|[<-|[<-|[]]]]; discriminate.
Qed.

Lemma TailRun_fatal self c e d h evs out h' ev x :
  TailRun self c e d h evs out h' ->
  In ev evs -> raised ev = Some x ->
  out = Raise x
  /\ exists pre, evs = pre ++ [ev] /\ Forall (fun e => raised e = None) pre.
Proof.
  intros Ht Hin Hr.
  destruct (TailRun_inv _ _ _ _ _ _ _ _ Ht)
    as (devs & dout & Hd & [(x0 & -> & -> & ->)|(dl & sent & o & -> & Hb & -> & ->)]).
  - destruct (DialogueRun_fatal _ _ _ _ _ _ _ _ _ _ Hd Hin Hr) as (Hx & -> & _).
    inversion Hx; subst.
    split; [reflexivity|]. exists []. split; [reflexivity|constructor].
  - assert (Fd : Forall (fun e => raised e = None) devs).
    { inversion Hd; subst; repeat constructor. }
    apply in_app_or in Hin. destruct Hin as [Hin|[<-|Hin]].
    + rewrite Forall_forall in Fd. rewrite (Fd _ Hin) in Hr. discriminate.
    + discriminate.
    + destruct (Broadcast_fatal _ _ _ _ _ _ Hb Hin Hr) as (-> & pre & -> & F).
      split; [reflexivity|].
      exists (devs ++ EvGameResult
                        {| chord := c; emotion := e; descriptors := d;
                           dialogue := dl |} :: pre).
      split; [now rewrite <- app_assoc|].
      apply Forall_app. split; [exact Fd|]. constructor; auto.
Qed.

(** The analysis: everything up to the emotion.  When it fails, the call
    that raised is its last effect. *)
Lemma analysis_fatal (pre : list event) (ev : event) (x : exn) :
  Forall (fun e => raised e = None) pre ->
  forall ev', In ev' (pre ++ [ev]) -> raised ev' = Some x -> ev' = ev.
Proof.
  intros F ev' Hin Hr. apply in_app_or in Hin. destruct Hin as [Hin|[<-|[]]].
  - rewrite Forall_forall in F. rewrite (F _ Hin) in Hr. discriminate.
  - reflexivity.
Qed.

Section Fatal.

Variable FEATURE_KEYS : list string.
Variable self : MusicEmotionGame.

(** Finish a goal [exists pre, l = pre ++ [ev] /\ Forall ok pre] where
    [l] is an explicit list ending in [ev]. *)
Ltac last_event :=
  first [ exists []; split; [reflexivity|repeat constructor]
        | eexists [_]; split; [reflexivity|repeat constructor]
        | eexists [_; _]; split; [reflexivity|repeat constructor]
        | eexists [_; _; _]; split; [reflexivity|repeat constructor]
        | eexists [_; _; _; _]; split; [reflexivity|repeat constructor] ].

Ltac pick_raised Hin Hr :=
  simpl in Hin;
  repeat (destruct Hin as [<-|Hin]; [try discriminate|]);
  try contradiction.

Lemma RequestRun_fatal req h evs out h' ev x :
  RequestRun FEATURE_KEYS self req h evs out h' ->
  In ev evs -> raised ev = Some x ->
  out = Raise x
  /\ exists pre, evs = pre ++ [ev] /\ Forall (fun e => raised e = None) pre.
Proof.
  intros Hrun Hin Hr.
  destruct req as [file_path|file_path]; simpl in Hrun.
  - destruct Hrun as [x0|s sr x0|s sr ch x0|s sr ch c x0|s sr ch c d evs x0 He
                     |s sr ch c d evs1 e evs2 out h' He Ht].
    1-4: pick_raised Hin Hr; simpl in Hr; inversion Hr; subst;
      (split; [reflexivity|last_event]).
    + simpl in Hin.
      repeat (destruct Hin as [<-|Hin]; [discriminate|]).
      destruct (EmotionRun_fatal _ _ _ _ _ _ _ He Hin Hr) as (Hx & ->).
      inversion Hx; subst.
      split; [reflexivity|]. simpl. last_event.
    + simpl in Hin.
      repeat (destruct Hin as [<-|Hin]; [discriminate|]).
      pose proof (EmotionRun_ok _ _ _ _ _ He) as F1.
      apply in_app_or in Hin. destruct Hin as [Hin|Hin].
      { rewrite Forall_forall in F1. rewrite (F1 _ Hin) in Hr. discriminate. }
      destruct (TailRun_fatal _ _ _ _ _ _ _ _ _ _ Ht Hin Hr) as (-> & pre & -> & F).
      split; [reflexivity|].
      eexists (_ :: _ :: _ :: _ :: evs1 ++ pre). split.
      * simpl. now rewrite <- app_assoc.
      * repeat (constructor; [reflexivity|]). apply Forall_app. split; auto.
  - destruct Hrun as [x0|evs out h' Ht|ch x0|ch evs out h' Ht|ch c evs x0 He
                     |ch c evs1 e evs2 out h' He Ht].
    + pick_raised Hin Hr; simpl in Hr; inversion Hr; subst.
      split; [reflexivity|last_event].
    + destruct Hin as [<-|Hin]; [discriminate|].
      destruct (TailRun_fatal _ _ _ _ _ _ _ _ _ _ Ht Hin Hr) as (-> & pre & -> & F).
      split; [reflexivity|].
      eexists (_ :: pre). split; [reflexivity|]. constructor; auto.
    + pick_raised Hin Hr; simpl in Hr; inversion Hr; subst.
      split; [reflexivity|last_event].
    + repeat (destruct Hin as [<-|Hin]; [discriminate|]).
      destruct (TailRun_fatal _ _ _ _ _ _ _ _ _ _ Ht Hin Hr) as (-> & pre & -> & F).
      split; [reflexivity|].
      eexists (_ :: _ :: pre). split; [reflexivity|].
      repeat (constructor; [reflexivity|]). exact F.
    + repeat (destruct Hin as [<-|Hin]; [discriminate|]).
      destruct (EmotionRun_fatal _ _ _ _ _ _ _ He Hin Hr) as (Hx & ->).
      inversion Hx; subst.
      split; [reflexivity|]. last_event.
    + repeat (destruct Hin as [<-|Hin]; [discriminate|]).
      pose proof (EmotionRun_ok _ _ _ _ _ He) as F1.
      apply in_app_or in Hin. destruct Hin as [Hin|Hin].
      { rewrite Forall_forall in F1. rewrite (F1 _ Hin) in Hr. discriminate. }
      destruct (TailRun_fatal _ _ _ _ _ _ _ _ _ _ Ht Hin Hr) as (-> & pre & -> & F).
      split; [reflexivity|].
      eexists (_ :: _ :: evs1 ++ pre). split.
      * simpl. now rewrite <- app_assoc.
      * repeat (constructor; [reflexivity|]). apply Forall_app. split; auto.
Qed.

End Fatal.

(** X1.  Whatever collaborator raises during a request (decoding, chroma,
    chord, descriptors, classifier, backend, socket), the call that
    raised is the last effect of the request, every call before it
    succeeded, and its exception is the outcome of the request. *)
Theorem collaborator_failure_is_fatal FEATURE_KEYS world self req st out st' ev x :
  process FEATURE_KEYS world self req st = (out, st') ->
  In ev (new_events st st') ->
  raised ev = Some x ->
  out = Raise x
  /\ exists pre,
       new_events st st' = pre ++ [ev]
       /\ Forall (fun e => raised e = None) pre.
Proof.
  intros Hrun Hin Hr.
  destruct (process_runs _ _ _ _ _ _ _ Hrun) as (evs & Ht & Hreq).
  rewrite (new_events_app _ _ _ Ht) in *.
  exact (RequestRun_fatal _ _ _ _ _ _ _ _ _ Hreq Hin Hr).
Qed.

Lemma collaborator_failure_is_fatal_witness :
  In (EvGenerate "tense" "Dm" Scenario.fast_and_loud []
        (Raise (Error "ConnectionError")))
     (new_events initial_state
        (snd (Scenario.run Scenario.ollama_down Scenario.game_unreal
                (Audio "take1.wav"))))
  /\ fst (Scenario.run Scenario.ollama_down Scenario.game_unreal (Audio "take1.wav"))
     = Raise (Error "ConnectionError").
Proof.
  set (run := Scenario.run Scenario.ollama_down Scenario.game_unreal
                (Audio "take1.wav")).
  assert (Hin : In (EvGenerate "tense" "Dm" Scenario.fast_and_loud []
                      (Raise (Error "ConnectionError")))
                   (new_events initial_state (snd run))).
  { vm_compute. tauto. }
  split; [exact Hin|].
  exact (proj1 (collaborator_failure_is_fatal Scenario.KEYS Scenario.ollama_down
                  Scenario.game_unreal (Audio "take1.wav") initial_state
                  (fst run) (snd run) _ _ (surjective_pairing run) Hin eq_refl)).
Defined.

(** ** What flows where *)

(** X2.  An audio request that returns a result decoded the file at the
    configured sample rate, computed the chroma from the samples at the
    sample rate the decoder returned and the configured hop length,
    estimated the chord from that chroma and extracted the descriptors
    from the same samples; the chord and the descriptors of the result
    are exactly what the estimator and the extractor returned (the
    descriptors are not the coerced features). *)
Theorem audio_result_data_flow FEATURE_KEYS world self file_path st out st' r :
  process_audio_file FEATURE_KEYS world self file_path st = (out, st') ->
  out = Ok r ->
  exists samples sr chroma rest,
    new_events st st'
    = EvLoadAudio file_path (sample_rate (config self)) (Ok (samples, sr))
      :: EvComputeChroma samples sr (hop_length (config self)) (Ok chroma)
      :: EvEstimateChord chroma (Ok (chord r))
      :: EvExtractDescriptors samples sr (Ok (descriptors r))
      :: rest
    /\ Forall (fun ev => (4 <= stage ev)%nat) rest.
Proof.
  intros Hrun ->.
  destruct (process_audio_file_runs _ _ _ _ _ _ _ Hrun) as (evs & Ht & Hr).
  rewrite (new_events_app _ _ _ Ht).
  remember (Ok r) as out eqn:Eout. remember (history st') as hist' eqn:Eh.
  destruct Hr as [x0|s sr x0|s sr ch x0|s sr ch c x0|s sr ch c d evs x0 He
                 |s sr ch c d evs1 e evs2 out h' He Htl]; try discriminate.
  subst out.
  destruct (TailRun_result _ _ _ _ _ _ _ _ Htl) as (-> & _ & ->).
  exists s, sr, ch, (evs1 ++ evs2). split; [reflexivity|].
  apply Forall_app. split.
  - eapply Forall_impl; [|exact (EmotionRun_stage _ _ _ _ _ He)].
    simpl; intros; lia.
  - eapply Forall_impl; [|exact (TailRun_stage _ _ _ _ _ _ _ _ Htl)].
    simpl; intros; lia.
Qed.

Lemma audio_result_data_flow_witness :
  exists r,
    fst (process_audio_file Scenario.KEYS Scenario.all_fine Scenario.game
           "take1.wav" initial_state) = Ok r
    /\ descriptors r = Scenario.fast_and_loud
    /\ hd_error
         (new_events initial_state
            (snd (process_audio_file Scenario.KEYS Scenario.all_fine Scenario.game
                    "take1.wav" initial_state)))
       = Some (EvLoadAudio "take1.wav" 22050 (Ok ([], 22050))).
Proof.
  set (run := process_audio_file Scenario.KEYS Scenario.all_fine Scenario.game
                "take1.wav" initial_state).
  eexists.
  assert (Hout : fst run = Ok _) by (vm_compute; reflexivity).
  split; [exact Hout|]. split; [reflexivity|].
  destruct (audio_result_data_flow Scenario.KEYS Scenario.all_fine Scenario.game
              "take1.wav" initial_state (fst run) (snd run) _
              (surjective_pairing run) Hout)
    as (samples & sr & chroma & rest & Hev & _).
  rewrite Hev. simpl. vm_compute in Hev. now inversion Hev.
Defined.




(** X4.  The dialogue backend is called at most once in a request, with
    the history as it was when the request started (the new turn is
    appended only afterwards) and with the descriptors of the result the
    request assembles. *)
Theorem backend_input FEATURE_KEYS world self req st out st' el cl d h o :
  process FEATURE_KEYS world self req st = (out, st') ->
  In (EvGenerate el cl d h o) (new_events st st') ->
  h = history st
  /\ (forall r, In (EvGameResult r) (new_events st st') -> descriptors r = d)
  /\ exists pre post,
       new_events st st' = pre ++ EvGenerate el cl d h o :: post
       /\ Forall (fun ev => stage ev <> 5%nat) pre
       /\ Forall (fun ev => stage ev <> 5%nat) post.
Proof.
  intros Hrun Hin.
  destruct (process_staged _ _ _ _ _ _ _ Hrun) as (_ & Hs).
  remember (new_events st st') as all eqn:Eall.
  remember (history st') as hist' eqn:Eh.
  clear Hrun Eall Eh.
  destruct Hs as [pre x0 Fpre _ _|pre c e d0 evs out h' Fpre _ _ _ Ht];
    [absurd_stage|].
  assert (Fpre5 : Forall (fun ev => stage ev <> 5%nat) pre).
  { eapply Forall_impl; [|exact Fpre]. simpl; intros; lia. }
  assert (Hpre : ~ In (EvGenerate el cl d h o) pre).
  { intros Hp. rewrite Forall_forall in Fpre5. now apply (Fpre5 _ Hp). }
  apply in_app_or in Hin. destruct Hin as [Hin|Hin]; [contradiction|].
  destruct (TailRun_inv _ _ _ _ _ _ _ _ Ht)
    as (devs & dout & Hd & [(x0 & -> & -> & ->)|(dl & sent & o' & -> & Hb & -> & ->)]).
  - destruct (DialogueRun_attempt _ _ _ _ _ _ _ _ _ _ _ _ _ Hd Hin)
      as (c0 & e0 & -> & -> & -> & -> & -> & ->).
    split; [reflexivity|]. split.
    + intros r Hres. apply in_app_or in Hres. destruct Hres as [Hres|Hres].
      * absurd_stage.
      * pose proof (DialogueRun_stage _ _ _ _ _ _ _ _ Hd) as Fd. absurd_stage.
    + inversion Hd as [|c1 e1 x1 Hc He Hev|]; subst.
      inversion Hc; inversion He; subst.
      destruct Hin as [Heq|[]]. inversion Heq; subst.
      exists pre, []. repeat split; auto.
  - pose proof (Broadcast_stage _ _ _ _ Hb) as Fsent.
    pose proof (DialogueRun_stage _ _ _ _ _ _ _ _ Hd) as Fd.
    assert (Hdev : In (EvGenerate el cl d h o) devs).
    { apply in_app_or in Hin. destruct Hin as [Hin|[Hin|Hin]];
        [assumption|discriminate|absurd_stage]. }
    destruct (DialogueRun_attempt _ _ _ _ _ _ _ _ _ _ _ _ _ Hd Hdev)
      as (c0 & e0 & -> & -> & -> & -> & -> & ->).
    split; [reflexivity|]. split.
    + intros r Hres. apply in_app_or in Hres. destruct Hres as [Hres|Hres];
        [absurd_stage|].
      apply in_app_or in Hres. destruct Hres as [Hres|[Hres|Hres]];
        [absurd_stage| |absurd_stage].
      inversion Hres; subst. reflexivity.
    + inversion Hd as [Hs| |c1 e1 turn Hc He Hev]; subst.
      * contradiction.
      * inversion Hc; inversion He; subst.
        destruct Hdev as [Heq|[Heq|[Heq|[]]]]; try discriminate.
        inversion Heq; subst.
        exists pre, (EvHistoryAppend turn
                     :: EvHistoryTrim (history_limit (config self))
                     :: EvGameResult
                          {| chord := Some c1; emotion := Some e1;
                             descriptors := d0; dialogue := Some turn |} :: sent).
        split; [reflexivity|]. split; [exact Fpre5|].
        repeat (constructor; [simpl; lia|]).
        eapply Forall_impl; [|exact Fsent]. simpl; intros; lia.
Qed.

Lemma backend_input_witness :
  In (EvGenerate "tense" "Dm" Scenario.fast_and_loud [Scenario.reply] (Ok Scenario.reply))
     (new_events
        (snd (Scenario.run Scenario.all_fine Scenario.game (Audio "take1.wav")))
        (snd (process Scenario.KEYS Scenario.all_fine Scenario.game (Audio "take2.wav")
                (snd (Scenario.run Scenario.all_fine Scenario.game
                        (Audio "take1.wav"))))))
  /\ history (snd (Scenario.run Scenario.all_fine Scenario.game (Audio "take1.wav")))
     = [Scenario.reply].
Proof.
  set (st1 := snd (Scenario.run Scenario.all_fine Scenario.game (Audio "take1.wav"))).
  set (run := process Scenario.KEYS Scenario.all_fine Scenario.game
                (Audio "take2.wav") st1).
  assert (Hin : In (EvGenerate "tense" "Dm" Scenario.fast_and_loud [Scenario.reply]
                      (Ok Scenario.reply))
                   (new_events st1 (snd run))).
  { vm_compute. tauto. }
  split; [exact Hin|].
  symmetry.
  exact (proj1 (backend_input Scenario.KEYS Scenario.all_fine Scenario.game
                  (Audio "take2.wav") st1 (fst run) (snd run) _ _ _ _ _
                  (surjective_pairing run) Hin)).
Defined.

(** ** The history *)

(** X5.  Nothing is rolled back when the broadcast fails: in a request
    that generated a turn and then failed in a [send_message], the caller
    gets the exception and no result, and the history nevertheless ends
    with the turn appended and trimmed. *)
Theorem broadcast_failure_keeps_turn
    FEATURE_KEYS world self req st out st' a v x el cl d h t :
  process FEATURE_KEYS world self req st = (out, st') ->
  In (EvSendMessage a v (Raise x)) (new_events st st') ->
  In (EvGenerate el cl d h (Ok t)) (new_events st st') ->
  out = Raise x
  /\ history st'
     = slice_from (- history_limit (config self)) (history st ++ [t]).
Proof.
  intros Hrun Hsend Hgen.
  pose proof (process_history _ _ _ _ _ _ _ Hrun) as Hh.
  destruct (process_runs _ _ _ _ _ _ _ Hrun) as (evs & Ht & Hreq).
  rewrite (new_events_app _ _ _ Ht) in *.
  destruct (RequestRun_fatal _ _ _ _ _ _ _ _ _ Hreq Hsend eq_refl)
    as (-> & pre & -> & Fpre).
  split; [reflexivity|].
  rewrite Hh, generated_app. simpl. rewrite app_nil_r.
  apply in_app_or in Hgen. destruct Hgen as [Hgen|[Hgen|[]]]; [|discriminate].
  assert (Hone : generated pre = [t]).
  { pose proof (RequestRun_staged _ _ _ _ _ _ _ Hreq) as Hs.
    clear Hh Ht Hrun Hreq.
    remember (pre ++ [EvSendMessage a v (Raise x)]) as all eqn:Eall.
    remember (@Raise GameResult x) as out0 eqn:Eout.
    remember (history st') as hist' eqn:Eh.
    destruct Hs as [pre0 x0 F0 _ _|pre0 c e d0 evs out1 h' F0 _ _ _ Htl].
    - assert (Hs : In (EvSendMessage a v (Raise x)) pre0)
        by (rewrite Eall; apply in_or_app; right; now left).
      rewrite Forall_forall in F0. specialize (F0 _ Hs). simpl in F0. lia.
    - assert (G0 : generated pre0 = []).
      { apply generated_none. eapply Forall_impl; [|exact F0].
        simpl; intros; lia. }
      assert (Hg : generated (pre0 ++ evs) = generated pre ++ []).
      { rewrite Eall, generated_app. reflexivity. }
      rewrite app_nil_r, generated_app, G0 in Hg. simpl in Hg.
      rewrite <- Hg.
      assert (Hin : In (EvGenerate el cl d h (Ok t)) evs).
      { assert (Hall : In (EvGenerate el cl d h (Ok t)) (pre0 ++ evs))
          by (rewrite Eall; apply in_or_app; now left).
        apply in_app_or in Hall. destruct Hall as [Hall|Hall]; [|exact Hall].
        rewrite Forall_forall in F0. specialize (F0 _ Hall). simpl in F0. lia. }
      destruct (TailRun_inv _ _ _ _ _ _ _ _ Htl)
        as (devs & dout & Hd
            & [(x0 & -> & -> & ->)|(dl & sent & o' & -> & Hb & -> & _)]).
      + destruct Hd as [Hs|c0 e0 x1 -> ->|c0 e0 turn -> ->]; simpl in *.
        * contradiction.
        * destruct Hin as [Heq|[]]; discriminate.
        * destruct Hin as [Heq|[Heq|[Heq|[]]]]; try discriminate.
          now inversion Heq.
      + pose proof (Broadcast_stage _ _ _ _ Hb) as Fsent.
        rewrite generated_app. simpl.
        rewrite (generated_none sent), app_nil_r
          by (eapply Forall_impl; [|exact Fsent]; simpl; intros; lia).
        apply in_app_or in Hin. destruct Hin as [Hin|[Hin|Hin]];
          [|discriminate|absurd_stage].
        destruct Hd as [Hs|c0 e0 x1 -> ->|c0 e0 turn -> ->]; simpl in *.
        * contradiction.
        * destruct Hin as [Heq|[]]; discriminate.
        * destruct Hin as [Heq|[Heq|[Heq|[]]]]; try discriminate.
          now inversion Heq. }
  rewrite Hone. reflexivity.
Qed.

Lemma broadcast_failure_keeps_turn_witness :
  In (EvSendMessage "/music/chord/label" (OscStr "Dm") (Raise (Error "OSError")))
     (new_events initial_state
        (snd (Scenario.run Scenario.socket_down Scenario.game_unreal
                (Audio "take1.wav"))))
  /\ In (EvGenerate "tense" "Dm" Scenario.fast_and_loud [] (Ok Scenario.reply))
        (new_events initial_state
           (snd (Scenario.run Scenario.socket_down Scenario.game_unreal
                   (Audio "take1.wav"))))
  /\ fst (Scenario.run Scenario.socket_down Scenario.game_unreal (Audio "take1.wav"))
     = Raise (Error "OSError")
  /\ history (snd (Scenario.run Scenario.socket_down Scenario.game_unreal
                     (Audio "take1.wav")))
     = [Scenario.reply].
Proof.
  set (run := Scenario.run Scenario.socket_down Scenario.game_unreal
                (Audio "take1.wav")).
  assert (Hs : In (EvSendMessage "/music/chord/label" (OscStr "Dm")
                     (Raise (Error "OSError")))
                  (new_events initial_state (snd run))).
  { vm_compute. tauto. }
  assert (Hg : In (EvGenerate "tense" "Dm" Scenario.fast_and_loud []
                     (Ok Scenario.reply))
                  (new_events initial_state (snd run))).
  { vm_compute. tauto. }
  split; [exact Hs|]. split; [exact Hg|].
  exact (broadcast_failure_keeps_turn Scenario.KEYS Scenario.socket_down
           Scenario.game_unreal (Audio "take1.wav") initial_state
           (fst run) (snd run) _ _ _ _ _ _ _ _ (surjective_pairing run) Hs Hg).
Defined.

Lemma history_after_negative (limit : Z) (turns : list DialogueTurn) :
  limit < 0 -> history_after limit turns [] = [].
Proof.
  intros Hl. unfold history_after.
  induction turns as [|t turns IH]; simpl; [reflexivity|].
  replace (slice_from (- limit) [t]) with (@nil DialogueTurn); [exact IH|].
  unfold slice_from, slice_start. simpl List.length.
  destruct (Z.ltb_spec (- limit) 0); [lia|].
  replace (Z.to_nat (Z.min (- limit) (Z.of_nat 1))) with 1%nat by lia.
  reflexivity.
Qed.

(** X6.  With a negative [history_limit] the history of a game object
    that started empty stays empty: after each append the slice
    [self.history[-limit:]] starts at a positive index and drops the one
    turn there is. *)
Theorem negative_history_limit_keeps_nothing FEATURE_KEYS world self reqs :
  history_limit (config self) < 0 ->
  history (session FEATURE_KEYS world self reqs initial_state) = [].
Proof.
  intros Hl.
  destruct (session_history FEATURE_KEYS world self reqs initial_state)
    as (_ & Hh).
  rewrite Hh. exact (history_after_negative _ _ Hl).
Qed.

Lemma negative_history_limit_keeps_nothing_witness :
  history_limit (config (Scenario.game_limit (-2))) < 0
  /\ history (session Scenario.KEYS Scenario.all_fine (Scenario.game_limit (-2))
                [Audio "take1.wav"; Audio "take2.wav"] initial_state) = []
  /\ List.length
       (generated
          (trace (session Scenario.KEYS Scenario.all_fine (Scenario.game_limit (-2))
                    [Audio "take1.wav"; Audio "take2.wav"] initial_state)))
     = 2%nat.
Proof.
  assert (Hl : history_limit (config (Scenario.game_limit (-2))) < 0)
    by (vm_compute; reflexivity).
  split; [exact Hl|]. split.
  - exact (negative_history_limit_keeps_nothing Scenario.KEYS Scenario.all_fine
             (Scenario.game_limit (-2)) [Audio "take1.wav"; Audio "take2.wav"] Hl).
  - vm_compute. reflexivity.
Defined.

(** ** The sink and the configuration *)

(** X7.  For a game object built by [__init__]: a request that returns
    a result has assembled it once and then, if [unreal_enabled] is set,
    sent every message of that result successfully and in order, and
    otherwise sent nothing. *)
Theorem broadcast_follows_config FEATURE_KEYS world cfg req st out st' r :
  process FEATURE_KEYS world (MusicEmotionGame_init cfg) req st = (out, st') ->
  out = Ok r ->
  exists pre,
    new_events st st'
    = pre ++ EvGameResult r
          :: (if unreal_enabled cfg
              then map (fun '(a, v) => EvSendMessage a v (Ok tt)) (osc_messages r)
              else [])
    /\ Forall (fun ev => (stage ev <= 6)%nat) pre.
Proof.
  intros Hrun ->.
  destruct (process_staged _ _ _ _ _ _ _ Hrun) as (_ & Hs).
  remember (new_events st st') as all eqn:Eall.
  remember (history st') as hist' eqn:Eh.
  remember (Ok r) as out eqn:Eout.
  clear Hrun Eall Eh.
  destruct Hs as [|pre c e d evs out h' Fpre _ _ _ Ht]; [discriminate|].
  subst out.
  destruct (TailRun_inv _ _ _ _ _ _ _ _ Ht)
    as (devs & dout & Hd & [(x0 & _ & Hx & _)|(dl & sent & o & -> & Hb & -> & Hout)]);
    [discriminate|].
  destruct o as [[]|x]; [|discriminate]. inversion Hout; subst r.
  exists (pre ++ devs). split.
  - rewrite <- app_assoc. do 3 f_equal.
    unfold Broadcast, MusicEmotionGame_init in Hb. simpl in Hb.
    destruct (unreal_enabled cfg).
    + exact (Sent_ok _ _ _ Hb eq_refl).
    + now destruct Hb.
  - apply Forall_app. split.
    + eapply Forall_impl; [|exact Fpre]. simpl; intros; lia.
    + eapply Forall_impl; [|exact (DialogueRun_stage _ _ _ _ _ _ _ _ Hd)].
      simpl; intros; lia.
Qed.

Lemma broadcast_follows_config_witness :
  exists r,
    fst (Scenario.run Scenario.all_fine Scenario.game (Audio "take1.wav")) = Ok r
    /\ exists pre,
         new_events initial_state
           (snd (Scenario.run Scenario.all_fine Scenario.game (Audio "take1.wav")))
         = pre ++ [EvGameResult r].
Proof.
  set (run := Scenario.run Scenario.all_fine Scenario.game (Audio "take1.wav")).
  eexists.
  assert (Hout : fst run = Ok _) by (vm_compute; reflexivity).
  split; [exact Hout|].
  destruct (broadcast_follows_config Scenario.KEYS Scenario.all_fine
              GameConfig_default (Audio "take1.wav") initial_state
              (fst run) (snd run) _ (surjective_pairing run) Hout)
    as (pre & Hev & _).
  exists pre. exact Hev.
Defined.

(** ** The gate and NaN *)

Lemma ltb_nan_left (y : PyFloat.float) : PyFloat.ltb PyFloat.nan y = false.
Proof. reflexivity. Qed.

Lemma ltb_nan_right (x : PyFloat.float) : PyFloat.ltb x PyFloat.nan = false.
Proof. destruct x; reflexivity. Qed.

(** X8.  The gate is the comparison [confidence < threshold], which is
    false when either side is NaN: a prediction whose confidence is NaN,
    or any prediction under a NaN threshold, is never discarded. *)
Theorem nan_passes_the_gate FEATURE_KEYS world self req st out st' feats p r :
  process FEATURE_KEYS world self req st = (out, st') ->
  In (EvPredict feats (Ok p)) (new_events st st') ->
  out = Ok r ->
  Emotion.confidence p = PyFloat.nan
  \/ confidence_threshold (config self) = PyFloat.nan ->
  emotion r = Some p.
Proof.
  intros Hrun Hin -> Hnan.
  destruct (process_staged _ _ _ _ _ _ _ Hrun) as (_ & Hs).
  remember (new_events st st') as all eqn:Eall.
  remember (history st') as hist' eqn:Eh.
  remember (Ok r) as out eqn:Eout.
  destruct Hs as [|pre c e d evs out h' Fpre _ _ Hgate Ht]; [discriminate|].
  subst out.
  pose proof (TailRun_stage _ _ _ _ _ _ _ _ Ht) as Ftail.
  destruct (TailRun_result _ _ _ _ _ _ _ _ Ht) as (_ & -> & _).
  apply in_app_or in Hin. destruct Hin as [Hin|Hin]; [|absurd_stage].
  rewrite (Hgate _ _ Hin).
  destruct Hnan as [Hn|Hn]; rewrite Hn.
  - now rewrite ltb_nan_left.
  - now rewrite ltb_nan_right.
Qed.

Lemma nan_passes_the_gate_witness :
  Emotion.confidence (Scenario.tense "nan") = PyFloat.nan
  /\ exists r,
       fst (Scenario.run (Scenario.studio "nan" Scenario.fast_and_loud
                            (Ok Scenario.reply) (Ok tt))
              Scenario.game (Audio "take1.wav")) = Ok r
       /\ emotion r = Some (Scenario.tense "nan").
Proof.
  set (w := Scenario.studio "nan" Scenario.fast_and_loud (Ok Scenario.reply) (Ok tt)).
  set (run := Scenario.run w Scenario.game (Audio "take1.wav")).
  assert (Hn : Emotion.confidence (Scenario.tense "nan") = PyFloat.nan)
    by reflexivity.
  split; [exact Hn|].
  eexists.
  assert (Hout : fst run = Ok _) by (vm_compute; reflexivity).
  split; [exact Hout|].
  refine (nan_passes_the_gate Scenario.KEYS w Scenario.game (Audio "take1.wav")
            initial_state (fst run) (snd run) _ _ _
            (surjective_pairing run) _ Hout (or_introl Hn)).
  vm_compute. tauto.
Defined.

(* ================================================================== *)
(** * The configuration file *)

Section Loading.

Variable repr : yaml -> string.

(** What each field of a loaded configuration comes from. *)
Lemma from_file_inv (loaded : yaml) (c : Loaded.GameConfig) :
  from_file repr (Ok loaded) = Ok c ->
  let raw := if Builtin.bool loaded then loaded else YDict [] in
  exists unreal_config ollama_model enabled ip,
    yaml_get raw "unreal" (YDict []) = Ok unreal_config
    /\ and_then (yaml_get raw "sample_rate" (YInt 22050)) Builtin.int
       = Ok (Loaded.sample_rate c)
    /\ and_then (yaml_get raw "hop_length" (YInt 512)) Builtin.int
       = Ok (Loaded.hop_length c)
    /\ and_then (yaml_get raw "confidence_threshold" (YFloat half)) Builtin.float
       = Ok (Loaded.confidence_threshold c)
    /\ and_then (yaml_get raw "emotion_labels"
                   (YList (Loaded.emotion_labels Loaded_default))) Builtin.list
       = Ok (Loaded.emotion_labels c)
    /\ and_then (yaml_get raw "ollama" (YDict []))
         (fun ollama => yaml_get ollama "model" (YStr "llama3"))
       = Ok ollama_model
    /\ Loaded.ollama_model c = py_str repr ollama_model
    /\ and_then (yaml_get raw "history_limit" (YInt 6)) Builtin.int
       = Ok (Loaded.history_limit c)
    /\ yaml_get unreal_config "enabled" (YBool false) = Ok enabled
    /\ Loaded.unreal_enabled c = Builtin.bool enabled
    /\ yaml_get unreal_config "ip" (YStr "127.0.0.1") = Ok ip
    /\ Loaded.unreal_ip c = py_str repr ip
    /\ and_then (yaml_get unreal_config "port" (YInt 7000)) Builtin.int
       = Ok (Loaded.unreal_port c).
Proof.
  intros H. cbv zeta. unfold from_file in H. simpl and_then at 1 in H.
  set (raw := if Builtin.bool loaded then loaded else YDict []) in *.
  destruct (yaml_get raw "unreal" (YDict [])) as [unreal_config|] eqn:E0;
    [|discriminate].
  simpl and_then at 1 in H.
  repeat match type of H with
         | and_then ?r _ = _ =>
             let E := fresh "E" in
             destruct r eqn:E; [simpl and_then at 1 in H|discriminate]
         end.
  inversion H; subst; clear H. simpl.
  eexists _, _, _, _. repeat split; try reflexivity; eassumption.
Qed.

(** X10.  A configuration file that is empty, or whose document is any
    false value ([null], [false], [0], [""], [[]], [{}]), or a mapping
    with none of the keys [from_file] reads, loads as the defaults of the
    dataclass. *)
Theorem from_file_defaults (loaded : yaml) :
  Builtin.bool loaded = false
  \/ (exists items,
        loaded = YDict items
        /\ forall k, In k config_keys -> lookup k items = None) ->
  from_file repr (Ok loaded) = Ok Loaded_default.
Proof.
  intros [Hfalse|(items & -> & Hnone)].
  - unfold from_file. simpl and_then at 1. rewrite Hfalse. reflexivity.
  - unfold from_file. simpl and_then at 1.
    assert (Hraw : forall k d, In k config_keys ->
              yaml_get (if Builtin.bool (YDict items) then YDict items else YDict [])
                       k d = Ok d).
    { intros k d Hk. destruct items as [|it items]; [reflexivity|].
      change (Builtin.bool (YDict (it :: items))) with true. cbv iota.
      unfold yaml_get. now rewrite (Hnone k Hk). }
    unfold config_keys in Hraw.
    rewrite !Hraw by (simpl; tauto). reflexivity.
Qed.

(** X11.  [from_file] raises on a document that is true and not a
    mapping (a non-empty sequence or string, a number, [true]), with
    [AttributeError], and on a mapping that binds [unreal] or [ollama] to
    anything but a mapping, [null] included (the key left with nothing
    under it). *)
Theorem from_file_needs_mappings (loaded : yaml) :
  (Builtin.bool loaded = true /\ forall items, loaded <> YDict items)
  \/ (exists items k v,
        loaded = YDict items
        /\ (k = "unreal" \/ k = "ollama")
        /\ lookup k items = Some v
        /\ forall sub, v <> YDict sub) ->
  exists e,
    from_file repr (Ok loaded) = Raise e
    /\ ((forall items, loaded <> YDict items) -> e = AttributeError).
Proof.
  intros [(Htrue & Hnot)|(items & k & v & -> & Hk & Hv & Hsub)].
  - exists AttributeError. split; [|reflexivity].
    unfold from_file. simpl and_then at 1. rewrite Htrue.
    destruct loaded; try reflexivity. destruct (Hnot items eq_refl).
  - destruct (from_file repr (Ok (YDict items))) as [c|e] eqn:E.
    + exfalso.
      destruct (from_file_inv _ _ E)
        as (uc & om & en & ip & Hu & _ & _ & _ & _ & Ho & _ & _ & He & _).
      assert (Hb : Builtin.bool (YDict items) = true).
      { destruct items; [discriminate|reflexivity]. }
      rewrite Hb in Hu, Ho. simpl in Hu, Ho.
      destruct Hk as [-> | ->]; rewrite Hv in *.
      * inversion Hu; subst uc.
        destruct v; simpl in He; try discriminate. destruct (Hsub items0 eq_refl).
      * destruct v; simpl in Ho; try discriminate. destruct (Hsub items0 eq_refl).
    + exists e. split; [reflexivity|].
      intros Hnot. destruct (Hnot items eq_refl).
Qed.

(** X12.  [from_file] checks no value.  Whatever integer the file gives
    for [history_limit] (zero and negative ones too) is the limit of the
    configuration; any non-empty string under [unreal.enabled] ("false"
    for one) enables the sink; and a string under [emotion_labels] is
    taken apart into one label per character. *)
Theorem from_file_checks_no_value (items : list (yaml * yaml))
    (c : Loaded.GameConfig) :
  from_file repr (Ok (YDict items)) = Ok c ->
  (forall z, lookup "history_limit" items = Some (YInt z) ->
             Loaded.history_limit c = z)
  /\ (forall sub s,
        lookup "unreal" items = Some (YDict sub) ->
        lookup "enabled" sub = Some (YStr s) ->
        s <> "" ->
        Loaded.unreal_enabled c = true)
  /\ (forall s,
        lookup "emotion_labels" items = Some (YStr s) ->
        Loaded.emotion_labels c
        = map (fun ch => YStr (String ch "")) (list_ascii_of_string s)).
Proof.
  intros H.
  destruct (from_file_inv _ _ H)
    as (uc & om & en & ip & Hu & _ & _ & _ & Hl & _ & _ & Hh & He & Hen & _).
  assert (Hraw : (if Builtin.bool (YDict items) then YDict items else YDict [])
                 = YDict items).
  { destruct items; reflexivity. }
  rewrite Hraw in *. simpl in Hu, Hl, Hh.
  split; [|split].
  - intros z Hz. rewrite Hz in Hh. simpl in Hh. congruence.
  - intros sub s Hsub Hs Hne. rewrite Hsub in Hu. inversion Hu; subst uc.
    simpl in He. rewrite Hs in He. inversion He; subst en.
    rewrite Hen. simpl. destruct (String.eqb_spec s ""); [contradiction|reflexivity].
  - intros s Hs. rewrite Hs in Hl. simpl in Hl. congruence.
Qed.

End Loading.

Lemma from_file_defaults_witness :
  Builtin.bool (YList []) = false
  /\ from_file Sample.repr (Ok (YList [])) = Ok Loaded_default.
Proof.
  split; [reflexivity|].
  exact (from_file_defaults Sample.repr (YList []) (or_introl eq_refl)).
Defined.

Lemma from_file_needs_mappings_witness :
  lookup "unreal" [(YStr "history_limit", YInt 4); (YStr "unreal", YNone)]
  = Some YNone
  /\ from_file Sample.repr
       (Ok (YDict [(YStr "history_limit", YInt 4); (YStr "unreal", YNone)]))
     = Raise AttributeError.
Proof.
  split; [reflexivity|].
  destruct (from_file_needs_mappings Sample.repr
              (YDict [(YStr "history_limit", YInt 4); (YStr "unreal", YNone)]))
    as (e & He & _).
  - right. exists [(YStr "history_limit", YInt 4); (YStr "unreal", YNone)],
      "unreal", YNone.
    repeat split; auto. discriminate.
  - rewrite He. vm_compute in He. symmetry. exact He.
Defined.

Lemma from_file_checks_no_value_witness :
  exists c,
    from_file Sample.repr
      (Ok (YDict [(YStr "history_limit", YInt 0);
                  (YStr "emotion_labels", YStr "sad");
                  (YStr "unreal", YDict [(YStr "enabled", YStr "false")])]))
    = Ok c
    /\ Loaded.history_limit c = 0
    /\ Loaded.unreal_enabled c = true
    /\ Loaded.emotion_labels c = [YStr "s"; YStr "a"; YStr "d"].
Proof.
  eexists.
  assert (H : from_file Sample.repr
                (Ok (YDict [(YStr "history_limit", YInt 0);
                            (YStr "emotion_labels", YStr "sad");
                            (YStr "unreal", YDict [(YStr "enabled", YStr "false")])]))
              = Ok _) by reflexivity.
  split; [exact H|].
  destruct (from_file_checks_no_value Sample.repr _ _ H) as (Hh & He & Hl).
  split; [exact (Hh 0 eq_refl)|].
  split; [|exact (Hl "sad" eq_refl)].
  apply (He [(YStr "enabled", YStr "false")] "false"); [reflexivity|reflexivity|].
  discriminate.
Defined.

(* ================================================================== *)
(** * Uploads *)

(** A comprehension raises only what its value expression raises. *)
Lemma comprehension_from_raise_inv {V} (f : string -> result V) (ks : list string) :
  forall d e,
    comprehension_from f ks d = Raise e ->
    exists k, In k ks /\ f k = Raise e.
Proof.
  induction ks as [|k0 ks IH]; simpl; intros d e H.
  - discriminate.
  - destruct (f k0) as [v|e0] eqn:E.
    + destruct (IH _ _ H) as (k & Hk & Hf). exists k; auto.
    + inversion H; subst. exists k0; auto.
Qed.

(** A request raises what one of its collaborator calls raised, or the
    [ValueError] of the coercion of the descriptors. *)
Lemma process_raise FEATURE_KEYS world self req st x st' :
  process FEATURE_KEYS world self req st = (Raise x, st') ->
  (exists ev, In ev (new_events st st') /\ raised ev = Some x)
  \/ x = ValueError.
Proof.
  intros Hrun.
  destruct (process_staged _ _ _ _ _ _ _ Hrun) as (_ & Hs).
  remember (new_events st st') as all eqn:Eall.
  remember (history st') as hist' eqn:Eh.
  remember (@Raise GameResult x) as out eqn:Eout.
  clear Hrun Eall Eh.
  destruct Hs as [pre x0 _ _ Hwhy|pre c e d evs out h' _ _ _ _ Ht].
  - inversion Eout; subst x0.
    destruct Hwhy as [Hev|(s & sr & d & _ & Hc)]; [now left|right].
    unfold numeric_features in Hc.
    destruct (comprehension_from_raise_inv _ _ _ _ Hc) as (k & _ & Hk).
    exact (py_float_raises _ _ Hk).
  - left. subst out.
    destruct (TailRun_inv _ _ _ _ _ _ _ _ Ht)
      as (devs & dout & Hd & [(x0 & -> & Hx & ->)|(dl & sent & o & -> & Hb & -> & Ho)]).
    + inversion Hx; subst x0.
      destruct (DialogueRun_raise _ _ _ _ _ _ _ _ Hd) as (ev & Hin & Hr).
      exists ev. split; [|exact Hr]. apply in_or_app. now right.
    + destruct o as [u|x0]; inversion Ho; subst x0.
      destruct (existsb (fun ev => match raised ev with Some _ => true | None => false end)
                  sent) eqn:Ex.
      * apply existsb_exists in Ex. destruct Ex as (ev & Hin & Hr).
        destruct (raised ev) as [y|] eqn:Ey; [|discriminate].
        exists ev. split.
        -- apply in_or_app; right. apply in_or_app; right. now right.
        -- destruct (Broadcast_fatal _ _ _ _ _ _ Hb Hin Ey) as (Hy & _).
           inversion Hy; subst. exact Ey.
      * assert (Hnone : forall ev, In ev sent -> raised ev = None).
        { intros ev Hin. destruct (raised ev) as [y|] eqn:Ey; [|reflexivity].
          assert (Hex : existsb (fun ev => match raised ev with
                                           | Some _ => true
                                           | None => false
                                           end) sent = true).
          { apply existsb_exists. exists ev. split; [exact Hin|now rewrite Ey]. }
          rewrite Hex in Ex. discriminate. }
        pose proof (Broadcast_no_failure _ _ _ _ Hb Hnone). discriminate.
Qed.

(** What [_handle_upload] does with an upload that is not empty and was
    copied to [temp_path]: it runs at most one request, handles what the
    request raised, and removes the copy. *)
Lemma _handle_upload_runs FEATURE_KEYS world game outside f temp_path
    st_error unlink st out st' :
  upload_size f <> 0 ->
  _handle_upload FEATURE_KEYS world game outside f (Ok temp_path)
    st_error unlink st = (out, st') ->
  (is_midi_upload f = false /\ is_audio_upload f = false
   /\ out = finally_unlink unlink (Ok None) /\ st' = st)
  \/ (exists req o,
        req = (if is_midi_upload f then Midi temp_path else Audio temp_path)
        /\ process FEATURE_KEYS world game req st = (o, st')
        /\ out = finally_unlink unlink (pending outside st_error (Some o))).
Proof.
  intros Hsize. unfold _handle_upload.
  destruct (Z.eqb_spec (upload_size f) 0); [contradiction|].
  destruct (is_midi_upload f).
  - intros H. right. exists (Midi temp_path).
    simpl process.
    destruct (process_midi_file FEATURE_KEYS world game temp_path st)
      as [o st1]; inversion H; subst; eexists; repeat split.
  - destruct (is_audio_upload f).
    + intros H. right. exists (Audio temp_path).
      simpl process.
      destruct (process_audio_file FEATURE_KEYS world game temp_path st)
        as [o st1]; inversion H; subst; eexists; repeat split.
    + intros H. inversion H; subst. left. auto.
Qed.

(** X13.  What [_handle_upload] does with the exceptions of the game,
    for an upload that was copied to a temporary file.  An exception of
    [temp_path.unlink()] other than [FileNotFoundError] is what the
    caller gets.  When [st.error] and the removal of the copy do not
    fail: an exception that a collaborator call raised during the request
    (decoder, classifier, dialogue backend, socket) becomes [None] if it
    derives from [Exception] and reaches the caller if it does not
    ([KeyboardInterrupt], [SystemExit]); the function returns a value
    whenever no collaborator call raised; and when that value is a
    result, the result was assembled and no call raised. *)
Theorem upload_failures_become_none
    FEATURE_KEYS world game outside f temp_path st_error unlink st out st' :
  _handle_upload FEATURE_KEYS world game outside f (Ok temp_path)
    st_error unlink st = (out, st') ->
  (forall e, upload_size f <> 0 -> unlink = Raise e -> e <> FileNotFoundError ->
             out = Raise e)
  /\ (st_error = Ok tt ->
      unlink = Ok tt \/ unlink = Raise FileNotFoundError ->
      (forall ev x,
         In ev (new_events st st') -> raised ev = Some x ->
         out = if is_Exception outside x then Ok None else Raise x)
      /\ ((forall ev, In ev (new_events st st') -> raised ev = None) ->
          exists o, out = Ok o)
      /\ (forall r,
            out = Ok (Some r) ->
            In (EvGameResult r) (new_events st st')
            /\ forall ev, In ev (new_events st st') -> raised ev = None)).
Proof.
  intros H. split.
  - intros e Hz -> He.
    assert (Hf : forall p : result (option GameResult),
               finally_unlink (Raise e) p = Raise e).
    { intros p. destruct e as [|k|name]; simpl; try reflexivity.
      destruct (String.eqb_spec name "FileNotFoundError") as [->|_];
        [now elim He|reflexivity]. }
    destruct (_handle_upload_runs _ _ _ _ _ _ _ _ _ _ _ Hz H)
      as [(_ & _ & -> & _)|(req & o & _ & _ & ->)]; apply Hf.
  - intros -> Hu.
    assert (Hf : forall p : result (option GameResult), finally_unlink unlink p = p).
    { intros p. destruct Hu as [->| ->]; reflexivity. }
    destruct (Z.eq_dec (upload_size f) 0) as [Hz|Hz].
    { unfold _handle_upload in H. rewrite Hz in H. simpl in H.
      inversion H; subst. unfold new_events. rewrite skipn_all.
      split; [intros ev x []|]. split; [eexists; reflexivity|discriminate]. }
    destruct (_handle_upload_runs _ _ _ _ _ _ _ _ _ _ _ Hz H)
      as [(_ & _ & -> & ->)|(req & o & _ & Hrun & ->)]; rewrite Hf.
    + unfold new_events. rewrite skipn_all.
      split; [intros ev x []|]. split; [eexists; reflexivity|discriminate].
    + destruct (process_runs _ _ _ _ _ _ _ Hrun) as (evs & Ht & Hreq).
      destruct (process_staged _ _ _ _ _ _ _ Hrun) as (_ & Hs).
      assert (Hraise : forall x, o = Raise x ->
                (exists ev, In ev (new_events st st') /\ raised ev = Some x)
                \/ x = ValueError).
      { intros x Hx. rewrite Hx in Hrun.
        exact (process_raise _ _ _ _ _ _ _ Hrun). }
      rewrite (new_events_app _ _ _ Ht) in *.
      split; [|split].
      * intros ev x Hin Hr.
        destruct (RequestRun_fatal _ _ _ _ _ _ _ _ _ Hreq Hin Hr) as (-> & _).
        simpl. destruct (is_Exception outside x); reflexivity.
      * intros Hnone. destruct o as [r|x]; simpl; [eexists; reflexivity|].
        destruct (Hraise x eq_refl) as [(ev & Hin & Hr)| ->].
        -- rewrite (Hnone ev Hin) in Hr. discriminate.
        -- simpl. eexists; reflexivity.
      * intros r Hr. destruct o as [r'|x]; simpl in Hr.
        2: { destruct (is_Exception outside x); discriminate. }
        inversion Hr; subst r'.
        split.
        -- remember (Ok r) as out eqn:Eout. remember (history st') as hist' eqn:Eh.
           clear Hrun Hreq Ht Hraise.
           destruct Hs as [|pre c e d tl out1 h' _ _ _ _ Htl]; [discriminate|].
           subst out1.
           destruct (TailRun_inv _ _ _ _ _ _ _ _ Htl)
             as (devs & dout & _
                 & [(x0 & _ & Hx & _)|(dl & sent & o' & _ & _ & -> & Hout)]);
             [discriminate|].
           destruct o'; inversion Hout; subst.
           apply in_or_app; right. apply in_or_app; right. now left.
        -- intros ev Hin. destruct (raised ev) as [x|] eqn:Hr'; [|reflexivity].
           destruct (RequestRun_fatal _ _ _ _ _ _ _ _ _ Hreq Hin Hr') as (Hx & _).
           discriminate.
Qed.

Lemma upload_failures_become_none_witness :
  (fst (_handle_upload Scenario.KEYS Scenario.ollama_down Scenario.game
          builtin_outside
          {| upload_name := "take1.wav"; upload_type := Some "audio/wav";
             upload_size := 2048 |}
          (Ok "/tmp/tmpa1.wav") (Ok tt) (Ok tt) initial_state)
   = Ok None
   /\ In (EvGenerate "tense" "Dm" Scenario.fast_and_loud []
            (Raise (Error "ConnectionError")))
         (new_events initial_state
            (snd (_handle_upload Scenario.KEYS Scenario.ollama_down Scenario.game
                    builtin_outside
                    {| upload_name := "take1.wav"; upload_type := Some "audio/wav";
                       upload_size := 2048 |}
                    (Ok "/tmp/tmpa1.wav") (Ok tt) (Ok tt) initial_state))))
  /\ (fst (_handle_upload Scenario.KEYS Scenario.interrupted Scenario.game
             builtin_outside
             {| upload_name := "take1.wav"; upload_type := Some "audio/wav";
                upload_size := 2048 |}
             (Ok "/tmp/tmpa1.wav") (Ok tt) (Raise FileNotFoundError) initial_state)
      = Raise (Error "KeyboardInterrupt")
      /\ In (EvGenerate "tense" "Dm" Scenario.fast_and_loud []
               (Raise (Error "KeyboardInterrupt")))
            (new_events initial_state
               (snd (_handle_upload Scenario.KEYS Scenario.interrupted Scenario.game
                       builtin_outside
                       {| upload_name := "take1.wav"; upload_type := Some "audio/wav";
                          upload_size := 2048 |}
                       (Ok "/tmp/tmpa1.wav") (Ok tt) (Raise FileNotFoundError)
                       initial_state))))
  /\ fst (_handle_upload Scenario.KEYS Scenario.all_fine Scenario.game
            builtin_outside
            {| upload_name := "take1.wav"; upload_type := Some "audio/wav";
               upload_size := 2048 |}
            (Ok "/tmp/tmpa1.wav") (Ok tt) (Raise (Error "PermissionError"))
            initial_state)
     = Raise (Error "PermissionError").
Proof.
  set (f := {| upload_name := "take1.wav"; upload_type := Some "audio/wav";
               upload_size := 2048 |}).
  set (run1 := _handle_upload Scenario.KEYS Scenario.ollama_down Scenario.game
                 builtin_outside f (Ok "/tmp/tmpa1.wav") (Ok tt) (Ok tt)
                 initial_state).
  set (run2 := _handle_upload Scenario.KEYS Scenario.interrupted Scenario.game
                 builtin_outside f (Ok "/tmp/tmpa1.wav") (Ok tt)
                 (Raise FileNotFoundError) initial_state).
  set (run3 := _handle_upload Scenario.KEYS Scenario.all_fine Scenario.game
                 builtin_outside f (Ok "/tmp/tmpa1.wav") (Ok tt)
                 (Raise (Error "PermissionError")) initial_state).
  assert (Hin1 : In (EvGenerate "tense" "Dm" Scenario.fast_and_loud []
                       (Raise (Error "ConnectionError")))
                    (new_events initial_state (snd run1))).
  { vm_compute. tauto. }
  assert (Hin2 : In (EvGenerate "tense" "Dm" Scenario.fast_and_loud []
                       (Raise (Error "KeyboardInterrupt")))
                    (new_events initial_state (snd run2))).
  { vm_compute. tauto. }
  split; [split; [|exact Hin1]|split; [split; [|exact Hin2]|]].
  - destruct (proj2 (upload_failures_become_none Scenario.KEYS Scenario.ollama_down
                       Scenario.game builtin_outside f "/tmp/tmpa1.wav"
                       (Ok tt) (Ok tt) initial_state (fst run1) (snd run1)
                       (surjective_pairing run1))
                eq_refl (or_introl eq_refl)) as (Hnone & _).
    exact (Hnone _ _ Hin1 eq_refl).
  - destruct (proj2 (upload_failures_become_none Scenario.KEYS Scenario.interrupted
                       Scenario.game builtin_outside f "/tmp/tmpa1.wav"
                       (Ok tt) (Raise FileNotFoundError) initial_state
                       (fst run2) (snd run2) (surjective_pairing run2))
                eq_refl (or_intror eq_refl)) as (Hnone & _).
    exact (Hnone _ _ Hin2 eq_refl).
  - refine (proj1 (upload_failures_become_none Scenario.KEYS Scenario.all_fine
                     Scenario.game builtin_outside f "/tmp/tmpa1.wav"
                     (Ok tt) (Raise (Error "PermissionError")) initial_state
                     (fst run3) (snd run3) (surjective_pairing run3))
              _ _ eq_refl _); discriminate.
Defined.

Lemma MidiRun_first FEATURE_KEYS self file_path h evs out h' :
  MidiRun FEATURE_KEYS self file_path h evs out h' ->
  (exists o rest, evs = EvDeriveChroma file_path o :: rest)
  /\ forall p sr o, ~ In (EvLoadAudio p sr o) evs.
Proof.
  destruct 1 as [x|evs out h' Ht|ch x|ch evs out h' Ht|ch c evs x He
                |ch c evs1 e evs2 out h' He Ht];
    (split; [eexists _, _; reflexivity|]); intros p sr o Hin; simpl in Hin;
    repeat (destruct Hin as [Hin|Hin]; [discriminate|]);
    try contradiction.
  - pose proof (TailRun_stage _ _ _ _ _ _ _ _ Ht) as F. absurd_stage.
  - pose proof (TailRun_stage _ _ _ _ _ _ _ _ Ht) as F. absurd_stage.
  - pose proof (EmotionRun_stage _ _ _ _ _ He) as F. absurd_stage.
  - pose proof (EmotionRun_stage _ _ _ _ _ He) as F1.
    pose proof (TailRun_stage _ _ _ _ _ _ _ _ Ht) as F2.
    apply in_app_or in Hin. destruct Hin as [Hin|Hin]; absurd_stage.
Qed.

(** X14.  The MIDI branch of [_handle_upload] is tried first.  An upload
    whose media type is one of the MIDI types, [application/octet-stream]
    among them, or whose name ends in [.mid] or [.midi] (in any letter
    case) is handed to [process_midi_file], whatever its name or type
    otherwise says: the request starts with [derive_chroma_from_midi] on
    the temporary copy and the audio decoder is never called. *)
Theorem midi_branch_comes_first FEATURE_KEYS world game outside f temp_path
    st_error unlink st out st' :
  upload_size f <> 0 ->
  is_midi_upload f = true ->
  _handle_upload FEATURE_KEYS world game outside f (Ok temp_path)
    st_error unlink st = (out, st') ->
  (exists o rest, new_events st st' = EvDeriveChroma temp_path o :: rest)
  /\ forall p sr o, ~ In (EvLoadAudio p sr o) (new_events st st').
Proof.
  intros Hsize Hmidi H.
  destruct (_handle_upload_runs _ _ _ _ _ _ _ _ _ _ _ Hsize H)
    as [(Hm & _)|(req & o & -> & Hrun & _)]; [congruence|].
  rewrite Hmidi in Hrun. simpl in Hrun.
  destruct (process_midi_file_runs _ _ _ _ _ _ _ Hrun) as (evs & Ht & Hr).
  rewrite (new_events_app _ _ _ Ht).
  exact (MidiRun_first _ _ _ _ _ _ _ Hr).
Qed.

Lemma midi_branch_comes_first_witness :
  is_midi_upload {| upload_name := "Take1.WAV";
                    upload_type := Some "Application/Octet-Stream";
                    upload_size := 2048 |} = true
  /\ is_audio_upload {| upload_name := "Take1.WAV";
                        upload_type := Some "Application/Octet-Stream";
                        upload_size := 2048 |} = true
  /\ forall p sr o,
       ~ In (EvLoadAudio p sr o)
            (new_events initial_state
               (snd (_handle_upload Scenario.KEYS Scenario.all_fine Scenario.game
                       builtin_outside
                       {| upload_name := "Take1.WAV";
                          upload_type := Some "Application/Octet-Stream";
                          upload_size := 2048 |}
                       (Ok "/tmp/tmpa1.wav") (Ok tt) (Ok tt) initial_state))).
Proof.
  set (f := {| upload_name := "Take1.WAV";
               upload_type := Some "Application/Octet-Stream";
               upload_size := 2048 |}).
  set (run := _handle_upload Scenario.KEYS Scenario.all_fine Scenario.game
                builtin_outside f (Ok "/tmp/tmpa1.wav") (Ok tt) (Ok tt)
                initial_state).
  assert (Hm : is_midi_upload f = true) by reflexivity.
  split; [exact Hm|]. split; [reflexivity|].
  refine (proj2 (midi_branch_comes_first Scenario.KEYS Scenario.all_fine
                   Scenario.game builtin_outside f "/tmp/tmpa1.wav" (Ok tt) (Ok tt)
                   initial_state (fst run) (snd run) _ Hm (surjective_pairing run))).
  discriminate.
Defined.
